(** * Water-source finder: AR projection and viewport fetch/cache controller

    Shallow embedding of the two JavaScript variants of the application
    script: [src/app.js] (the variant with request cancellation, cache
    eviction and zoom gating) and [src/unnamed/part_000] (the older variant
    without them).

    Numbers.  JavaScript numbers are modelled as exact rationals [Q]: every
    finite double is a rational, and the arithmetic of the script is taken
    without rounding.  Millisecond timestamps ([Date.now()]) are integers [Z].
    Equality of rationals is [Qeq] (written [==]). *)

From Stdlib Require Import QArith Qabs Qround Qminmax ZArith NArith List String Bool.
From Stdlib Require Import DecimalString.
From Stdlib Require Import Lia Lqa Permutation Sorted.
Import ListNotations.

Local Open Scope Q_scope.

(** ** Numeric helpers *)

(** [x < y] on JavaScript numbers, as a boolean. *)
Definition Qlt_bool (x y : Q) : bool := negb (Qle_bool y x).

(** [Math.round]: the nearest integer, halves rounded up. *)
Definition Math_round (x : Q) : Z := Qfloor (x + (1 # 2)).

(** Truncation toward zero and the [%] operator on numbers (the result has
    the sign of the dividend). *)
Definition Qtrunc (x : Q) : Z := if Qle_bool 0 x then Qfloor x else Qceiling x.

Definition js_mod (a b : Q) : Q := a - b * inject_Z (Qtrunc (a / b)).

(** ** Loops

    A [while (cond) body] loop over one variable.  The fuel bounds the
    number of iterations; [None] means the fuel ran out before the condition
    became false. *)
Fixpoint while_loop {A : Type} (cond : A -> bool) (body : A -> A)
         (fuel : nat) (a : A) : option A :=
  if cond a then
    match fuel with
    | O => None
    | S n => while_loop cond body n (body a)
    end
  else Some a.

(** ** GeoMath: angle normalisation

    The wrap-around loops of [drawAR] (app.js lines 582-583, the same in
    both variants):
<<
      while (relativeAngle <= -180) relativeAngle += 360;
      while (relativeAngle > 180) relativeAngle -= 360;
>> *)
Definition wrapUp (fuel : nat) (a : Q) : option Q :=
  while_loop (fun r => Qle_bool r (-180)) (fun r => r + 360) fuel a.

Definition wrapDown (fuel : nat) (a : Q) : option Q :=
  while_loop (fun r => Qlt_bool 180 r) (fun r => r - 360) fuel a.

Definition normalizeAngleFuel (fuel : nat) (a : Q) : option Q :=
  match wrapUp fuel a with
  | Some r => wrapDown fuel r
  | None => None
  end.

(** A number of iterations that is enough for either loop on input [a]. *)
Definition angleFuel (a : Q) : nat := Z.to_nat (Qceiling (Qabs a / 360)).

(** The loops run with enough fuel.  The fall-back value is never used
    ([normalizeAngleFuel_enough] below). *)
Definition normalizeAngle (a : Q) : Q :=
  match normalizeAngleFuel (angleFuel a) a with
  | Some r => r
  | None => a
  end.


(** ** Data model *)

(** A Leaflet [LatLng]. *)
Record LatLng : Type := mkLatLng { lat : Q; lng : Q }.

(** An element of an Overpass response.  A missing (or [null]) property is
    [None]; nodes carry [lat]/[lon], ways and relations carry [center]. *)
Record Center : Type := mkCenter {
  center_lat : option Q;
  center_lon : option Q
}.

Record Tags : Type := mkTags {
  tag_name : option string;
  tag_operator : option string;
  tag_access : option string
}.

Record Element : Type := mkElement {
  el_id : Z;
  el_lat : option Q;
  el_lon : option Q;
  el_center : option Center;
  el_tags : option Tags
}.

(** [f.lat ?? f.center?.lat] and [f.lon ?? f.center?.lon]. *)
Definition element_lat (f : Element) : option Q :=
  match el_lat f with
  | Some v => Some v
  | None => match el_center f with Some c => center_lat c | None => None end
  end.

Definition element_lon (f : Element) : option Q :=
  match el_lon f with
  | Some v => Some v
  | None => match el_center f with Some c => center_lon c | None => None end
  end.

(** [f.tags?.name || 'Drinking water']: the empty string is falsy. *)
Definition element_name (f : Element) : string :=
  match el_tags f with
  | Some t =>
      match tag_name t with
      | Some n => if String.eqb n "" then "Drinking water"%string else n
      | None => "Drinking water"%string
      end
  | None => "Drinking water"%string
  end.

(** ** Sorting

    [Array.prototype.sort] with a comparator: a stable sort.  [leb a b]
    stands for [compare(a, b) <= 0].  Stable insertion sort: an element is
    put in front of the first element it does not exceed. *)
Section Sorting.
Context {A : Type} (leb : A -> A -> bool).

Fixpoint insertBy (x : A) (l : list A) : list A :=
  match l with
  | [] => [x]
  | y :: r => if leb x y then x :: y :: r else y :: insertBy x r
  end.

Definition sortBy (l : list A) : list A := fold_right insertBy [] l.
End Sorting.

(** ** External collaborators of the projector

    Functions of the platform and of the Leaflet library, which are not part
    of the repository: [LatLng.distanceTo], [L.Util.degToRad],
    [L.Util.radToDeg], [Math.sin], [Math.cos] and [Math.atan2]. *)
Class Platform : Type := {
  distanceTo : LatLng -> LatLng -> Q;
  degToRad : Q -> Q;
  radToDeg : Q -> Q;
  Math_sin : Q -> Q;
  Math_cos : Q -> Q;
  Math_atan2 : Q -> Q -> Q
}.

(** ** ARProjector ([drawAR], app.js lines 553-643; the same code in
    part_000 lines 373-468) *)

Definition HFOV_DEGREES : Q := 75.
Definition MAX_AR_DISTANCE : Q := 1000.

(** The objects built by the [map] callback of [drawAR]. *)
Record ARFountain : Type := mkARFountain {
  ar_name : string;
  ar_dist : Q;
  ar_relativeAngle : Q;
  ar_id : Z;
  ar_lat : Q;
  ar_lon : Q
}.

(** What [drawAR] paints for one fountain: the circle, its opacity and the
    text labels. *)
Record Drawn : Type := mkDrawn {
  d_screenX : Q;
  d_screenY : Q;
  d_iconRadius : Q;
  d_opacity : Q;
  d_distLabel : Z;
  d_nameLabel : option string
}.

(** The text of [arInfo]. *)
Inductive ArInfo : Type :=
| InfoNoLocation                          (* 'User location not available.' *)
| InfoNearest (meters : Z) (name : string) (* `${round(dist)}m to ${name}` *)
| InfoNoneInView (total : nat)   (* `${total} water sources found nearby (none in view)` *)
| InfoNoneFound.                 (* 'No water sources found in this area' *)

Section Projector.
Context {P : Platform}.

Definition bearingTo (user : LatLng) (flat flon : Q) : Q :=
  let dLon := degToRad (flon - lng user) in
  let lat1 := degToRad (lat user) in
  let lat2 := degToRad flat in
  let y := Math_sin dLon * Math_cos lat2 in
  let x := Math_cos lat1 * Math_sin lat2
           - Math_sin lat1 * Math_cos lat2 * Math_cos dLon in
  js_mod (radToDeg (Math_atan2 y x) + 360) 360.

(** The [map] callback: [None] is the callback's [null]. *)
Definition projectFountain (heading : Q) (user : LatLng) (f : Element)
  : option ARFountain :=
  match element_lat f, element_lon f with
  | Some flat, Some flon =>
      let fountainPos := mkLatLng flat flon in
      let dist := distanceTo user fountainPos in
      if Qlt_bool MAX_AR_DISTANCE dist then None
      else
        let bearing := bearingTo user flat flon in
        let relativeAngle := normalizeAngle (bearing - heading) in
        Some (mkARFountain (element_name f) dist relativeAngle
                           (el_id f) flat flon)
  | _, _ => None
  end.

(** [.filter(f => f !== null && Math.abs(f.relativeAngle) <= HFOV_DEGREES / 2)] *)
Fixpoint filterInView (l : list (option ARFountain)) : list ARFountain :=
  match l with
  | [] => []
  | None :: r => filterInView r
  | Some f :: r =>
      if Qle_bool (Qabs (ar_relativeAngle f)) (HFOV_DEGREES / 2)
      then f :: filterInView r
      else filterInView r
  end.

(** [(a, b) => a.dist - b.dist] as an order. *)
Definition distLeb (a b : ARFountain) : bool :=
  Qle_bool (ar_dist a - ar_dist b) 0.

(** [fountains.map(...).filter(...).sort(...).slice(0, 5)] *)
Definition arFountains (heading : Q) (user : LatLng)
           (fountains : list Element) : list ARFountain :=
  firstn 5 (sortBy distLeb
              (filterInView (map (projectFountain heading user) fountains))).

(** Screen mapping of one fountain (the [forEach] callback). *)
Definition canvasCenterX (width : Q) : Q := width / 2.
Definition canvasBottomY (height : Q) : Q := height - 80.
Definition projectionMaxY (height : Q) : Q := height * (3 # 10).

Definition screenX (width relativeAngle : Q) : Q :=
  canvasCenterX width
  + (relativeAngle / (HFOV_DEGREES / 2)) * (canvasCenterX width * (9 # 10)).

Definition yRatio (dist : Q) : Q :=
  Qmax 0 (Qmin 1 (1 - dist / MAX_AR_DISTANCE)).

Definition screenY (height dist : Q) : Q :=
  canvasBottomY height
  - yRatio dist * (canvasBottomY height - projectionMaxY height).

Definition iconRadius (dist : Q) : Q := 10 + 8 * yRatio dist.

Definition drawFountain (width height : Q) (index : nat) (f : ARFountain)
  : Drawn :=
  mkDrawn (screenX width (ar_relativeAngle f))
          (screenY height (ar_dist f))
          (iconRadius (ar_dist f))
          ((7 # 10) + (3 # 10) * yRatio (ar_dist f))
          (Math_round (ar_dist f))
          (if Nat.eqb index 0 && negb (String.eqb (ar_name f) "Drinking water")
           then Some (ar_name f) else None).

Fixpoint drawAll (width height : Q) (index : nat) (l : list ARFountain)
  : list Drawn :=
  match l with
  | [] => []
  | f :: r => drawFountain width height index f
              :: drawAll width height (S index) r
  end.

(** [drawAR(heading)]: the canvas is cleared and repainted, and the info
    line is set.  The globals it reads are arguments here: the canvas
    size, [userLocation] and [window._fountains || []]. *)
Definition drawAR (heading width height : Q) (userLocation : option LatLng)
           (fountains : list Element) : list Drawn * ArInfo :=
  match userLocation with
  | None => ([], InfoNoLocation)
  | Some user =>
      let shown := arFountains heading user fountains in
      (drawAll width height 0 shown,
       match shown with
       | nearest :: _ =>
           InfoNearest (Math_round (ar_dist nearest)) (ar_name nearest)
       | [] =>
           let totalFountains := List.length fountains in
           if Nat.ltb 0 totalFountains then InfoNoneInView totalFountains
           else InfoNoneFound
       end)
  end.
End Projector.

(** ** HeadingTracker ([deviceOrientationHandler], app.js lines 475-497) *)

(** A device-orientation event.  [ev_absolute] is [Some b] for the boolean
    [b] and [None] for any other value; a [null] or [undefined] reading is
    [None]. *)
Record OrientationEvent : Type := mkOrientationEvent {
  ev_absolute : option bool;
  ev_alpha : option Q;
  ev_webkitCompassHeading : option Q
}.

Inductive HeadingWarning : Type :=
| WarnCompassNotAbsolute   (* "Using webkitCompassHeading, but event.absolute is false ..." *)
| WarnNotAbsolute.         (* "Device orientation data is not 'absolute' ..." *)

(** [let currentHeading = 0;] *)
Definition initialHeading : Q := 0.

(** The handler returns the new value of [currentHeading] and the warnings
    it logs. *)
Definition deviceOrientationHandler (event : OrientationEvent)
           (currentHeading : Q) : Q * list HeadingWarning :=
  let newHeadingReported := false in
  let newHeadingValue := currentHeading in
  let '(newHeadingValue, newHeadingReported, warnings) :=
    match ev_absolute event, ev_alpha event with
    | Some true, Some alpha => (alpha, true, [])
    | _, _ =>
        match ev_webkitCompassHeading event with
        | Some compass =>
            (compass, true,
             match ev_absolute event with
             | Some false => [WarnCompassNotAbsolute]
             | _ => []
             end)
        | None =>
            match ev_alpha event with
            | Some alpha => (alpha, true, [WarnNotAbsolute])
            | None => (newHeadingValue, newHeadingReported, [])
            end
        end
    end in
  if newHeadingReported then (newHeadingValue, warnings)
  else (currentHeading, warnings).

(** The heading after a sequence of events, starting from the initial one. *)
Definition trackHeading (events : list OrientationEvent) : Q :=
  fold_left (fun h e => fst (deviceOrientationHandler e h)) events
            initialHeading.

(** ** Viewport fetch controller: shared data

    The globals of the script and the parts of the browser the controller
    talks to (pending timers, pending fetches, the notification and
    loading-indicator widgets, the console). *)

(** A Leaflet [LatLngBounds]. *)
Record Bounds : Type := mkBounds {
  getSouth : Q;
  getWest : Q;
  getNorth : Q;
  getEast : Q
}.

(** [L.latLngBounds([[lat1, lng1], [lat2, lng2]])]: Leaflet extends the
    bounds to contain both corners, so the result is ordered and
    [isValid()] holds for it. *)
Definition latLngBounds (c1 c2 : Q * Q) : Bounds :=
  mkBounds (Qmin (fst c1) (fst c2)) (Qmin (snd c1) (snd c2))
           (Qmax (fst c1) (fst c2)) (Qmax (snd c1) (snd c2)).

Definition isValid (b : Bounds) : bool := true.

(** Decimal digits of a natural number, and [Number.prototype.toFixed] for
    magnitudes below 1e21: sign, integer digits, point, [digits] decimals,
    ties rounded away from zero. *)
Definition decimal (n : N) : string := NilZero.string_of_uint (N.to_uint n).

Fixpoint zeros (n : nat) : string :=
  match n with
  | O => EmptyString
  | S k => ("0" ++ zeros k)%string
  end.

(** The digits [s] filled up with zeros on the left to [width] characters;
    a longer [s] is left as it is. *)
Definition padLeft (width : nat) (s : string) : string :=
  (zeros (width - String.length s) ++ s)%string.

Definition toFixed (x : Q) (digits : nat) : string :=
  let scale := (10 ^ Z.of_nat digits)%Z in
  let n := Qfloor (Qabs x * inject_Z scale + (1 # 2)) in
  let whole := decimal (Z.to_N (n / scale)) in
  let body :=
    match digits with
    | O => whole
    | S _ => (whole ++ "."
              ++ padLeft digits (decimal (Z.to_N (n mod scale))))%string
    end in
  if Qlt_bool x 0 then ("-" ++ body)%string else body.

(** The cache key: the four edges joined with commas. *)
Definition cacheKey (digits : nat) (b : Bounds) : string :=
  (toFixed (getSouth b) digits ++ "," ++ toFixed (getWest b) digits ++ ","
   ++ toFixed (getNorth b) digits ++ "," ++ toFixed (getEast b) digits)%string.

(** A value of [bboxCache]: [{ data, timestamp }]. *)
Record CacheEntry : Type := mkCacheEntry {
  data : list Element;
  timestamp : Z
}.

(** A JavaScript [Map] with string keys: entries in insertion order. *)
Definition JsMap (V : Type) : Type := list (string * V).

Section JsMapOps.
Context {V : Type}.

Fixpoint map_get (key : string) (m : JsMap V) : option V :=
  match m with
  | [] => None
  | (k, v) :: r => if String.eqb k key then Some v else map_get key r
  end.

(** [set] replaces the value of a present key where it stands and appends
    a new key at the end. *)
Fixpoint map_set (key : string) (v : V) (m : JsMap V) : JsMap V :=
  match m with
  | [] => [(key, v)]
  | (k, w) :: r =>
      if String.eqb k key then (k, v) :: r else (k, w) :: map_set key v r
  end.

Definition map_delete (key : string) (m : JsMap V) : JsMap V :=
  filter (fun e => negb (String.eqb (fst e) key)) m.

Definition map_size (m : JsMap V) : nat := List.length m.

Definition map_keys (m : JsMap V) : list string := map fst m.

(** Is the key of [e] none of the keys of the entries [gone]? *)
Definition keptFrom (gone : list (string * V)) (e : string * V) : bool :=
  negb (existsb (fun r => String.eqb (fst e) (fst r)) gone).
End JsMapOps.

(** A thrown value: its [name] and [message]. *)
Record JsError : Type := mkJsError {
  err_name : string;
  err_message : string
}.

Definition AbortError : JsError :=
  mkJsError "AbortError" "The operation was aborted.".

(** How an awaited promise settles. *)
Inductive Settled (A : Type) : Type :=
| Resolved (value : A)
| Rejected (reason : JsError).
Arguments Resolved {A} value.
Arguments Rejected {A} reason.

(** The part of a [fetch] response the script reads. *)
Record Response : Type := mkResponse {
  resp_ok : bool;
  resp_status : N
}.

(** The two request functions. *)
Inductive FetchKind : Type :=
| Nearby (flat flon radius : Q)
| Fountains (bounds : Bounds) (key : string).

(** Where a started request function is suspended. *)
Inductive Phase : Type :=
| AwaitFetch     (* at [await fetch(...)] *)
| AwaitJson.     (* at [await resp.json()] *)

(** A started call of [fetchNearby] or [fetchFountains] that has not
    finished.  [task_id] names the call and the [AbortController] it
    created; [task_aborted] tells that [abort()] was called on its signal,
    which cancels the request: the pending promise then rejects with
    [AbortError]. *)
Record Task : Type := mkTask {
  task_id : nat;
  task_kind : FetchKind;
  task_phase : Phase;
  task_aborted : bool
}.

Record Timer : Type := mkTimer {
  timer_id : nat;
  timer_delay : Z
}.

Record Notification : Type := mkNotification {
  note_message : string;
  note_type : string
}.

(** A marker of the cluster layer (its popup is not modelled). *)
Record Marker : Type := mkMarker {
  marker_lat : Q;
  marker_lon : Q;
  marker_name : string
}.

Record AppState : Type := mkAppState {
  zoom : Q;                                 (* map.getZoom() *)
  mapBounds : Bounds;                       (* map.getBounds() *)
  userLocation : option LatLng;
  currentFetchController : option nat;
  lastFetchBounds : option Bounds;
  fetchTimeout : option nat;
  timers : list Timer;                      (* timeouts set and not yet fired or cleared *)
  nextId : nat;                             (* fresh timer and controller ids *)
  bboxCache : JsMap CacheEntry;
  window_fountains : list Element;          (* window._fountains || [] *)
  markerLayer : list Marker;                (* markersCluster *)
  notifications : list Notification;        (* notifications shown so far *)
  loadingIndicator : bool;                  (* is the indicator displayed *)
  tasks : list Task;
  console : list string
}.

Definition initialState (z : Q) (b : Bounds) : AppState :=
  mkAppState z b None None None None [] 0 [] [] [] [] false [] [].

(** Assignments to the globals. *)
Definition set_zoom (v : Q) (s : AppState) : AppState :=
  mkAppState v (mapBounds s) (userLocation s) (currentFetchController s) (lastFetchBounds s) (fetchTimeout s) (timers s) (nextId s) (bboxCache s) (window_fountains s) (markerLayer s) (notifications s) (loadingIndicator s) (tasks s) (console s).
Definition set_mapBounds (v : Bounds) (s : AppState) : AppState :=
  mkAppState (zoom s) v (userLocation s) (currentFetchController s) (lastFetchBounds s) (fetchTimeout s) (timers s) (nextId s) (bboxCache s) (window_fountains s) (markerLayer s) (notifications s) (loadingIndicator s) (tasks s) (console s).
Definition set_userLocation (v : option LatLng) (s : AppState) : AppState :=
  mkAppState (zoom s) (mapBounds s) v (currentFetchController s) (lastFetchBounds s) (fetchTimeout s) (timers s) (nextId s) (bboxCache s) (window_fountains s) (markerLayer s) (notifications s) (loadingIndicator s) (tasks s) (console s).
Definition set_currentFetchController (v : option nat) (s : AppState) : AppState :=
  mkAppState (zoom s) (mapBounds s) (userLocation s) v (lastFetchBounds s) (fetchTimeout s) (timers s) (nextId s) (bboxCache s) (window_fountains s) (markerLayer s) (notifications s) (loadingIndicator s) (tasks s) (console s).
Definition set_lastFetchBounds (v : option Bounds) (s : AppState) : AppState :=
  mkAppState (zoom s) (mapBounds s) (userLocation s) (currentFetchController s) v (fetchTimeout s) (timers s) (nextId s) (bboxCache s) (window_fountains s) (markerLayer s) (notifications s) (loadingIndicator s) (tasks s) (console s).
Definition set_fetchTimeout (v : option nat) (s : AppState) : AppState :=
  mkAppState (zoom s) (mapBounds s) (userLocation s) (currentFetchController s) (lastFetchBounds s) v (timers s) (nextId s) (bboxCache s) (window_fountains s) (markerLayer s) (notifications s) (loadingIndicator s) (tasks s) (console s).
Definition set_timers (v : list Timer) (s : AppState) : AppState :=
  mkAppState (zoom s) (mapBounds s) (userLocation s) (currentFetchController s) (lastFetchBounds s) (fetchTimeout s) v (nextId s) (bboxCache s) (window_fountains s) (markerLayer s) (notifications s) (loadingIndicator s) (tasks s) (console s).
Definition set_nextId (v : nat) (s : AppState) : AppState :=
  mkAppState (zoom s) (mapBounds s) (userLocation s) (currentFetchController s) (lastFetchBounds s) (fetchTimeout s) (timers s) v (bboxCache s) (window_fountains s) (markerLayer s) (notifications s) (loadingIndicator s) (tasks s) (console s).
Definition set_bboxCache (v : JsMap CacheEntry) (s : AppState) : AppState :=
  mkAppState (zoom s) (mapBounds s) (userLocation s) (currentFetchController s) (lastFetchBounds s) (fetchTimeout s) (timers s) (nextId s) v (window_fountains s) (markerLayer s) (notifications s) (loadingIndicator s) (tasks s) (console s).
Definition set_window_fountains (v : list Element) (s : AppState) : AppState :=
  mkAppState (zoom s) (mapBounds s) (userLocation s) (currentFetchController s) (lastFetchBounds s) (fetchTimeout s) (timers s) (nextId s) (bboxCache s) v (markerLayer s) (notifications s) (loadingIndicator s) (tasks s) (console s).
Definition set_markerLayer (v : list Marker) (s : AppState) : AppState :=
  mkAppState (zoom s) (mapBounds s) (userLocation s) (currentFetchController s) (lastFetchBounds s) (fetchTimeout s) (timers s) (nextId s) (bboxCache s) (window_fountains s) v (notifications s) (loadingIndicator s) (tasks s) (console s).
Definition set_notifications (v : list Notification) (s : AppState) : AppState :=
  mkAppState (zoom s) (mapBounds s) (userLocation s) (currentFetchController s) (lastFetchBounds s) (fetchTimeout s) (timers s) (nextId s) (bboxCache s) (window_fountains s) (markerLayer s) v (loadingIndicator s) (tasks s) (console s).
Definition set_loadingIndicator (v : bool) (s : AppState) : AppState :=
  mkAppState (zoom s) (mapBounds s) (userLocation s) (currentFetchController s) (lastFetchBounds s) (fetchTimeout s) (timers s) (nextId s) (bboxCache s) (window_fountains s) (markerLayer s) (notifications s) v (tasks s) (console s).
Definition set_tasks (v : list Task) (s : AppState) : AppState :=
  mkAppState (zoom s) (mapBounds s) (userLocation s) (currentFetchController s) (lastFetchBounds s) (fetchTimeout s) (timers s) (nextId s) (bboxCache s) (window_fountains s) (markerLayer s) (notifications s) (loadingIndicator s) v (console s).
Definition set_console (v : list string) (s : AppState) : AppState :=
  mkAppState (zoom s) (mapBounds s) (userLocation s) (currentFetchController s) (lastFetchBounds s) (fetchTimeout s) (timers s) (nextId s) (bboxCache s) (window_fountains s) (markerLayer s) (notifications s) (loadingIndicator s) (tasks s) v.

(** ** A small monad for the script's statements

    A statement transforms the globals and completes normally or throws. *)
Inductive Completion (A : Type) : Type :=
| Normal (value : A)
| Throw (reason : JsError).
Arguments Normal {A} value.
Arguments Throw {A} reason.

Definition Js (A : Type) : Type := AppState -> Completion A * AppState.

Definition ret {A : Type} (a : A) : Js A := fun s => (Normal a, s).

Definition bind {A B : Type} (m : Js A) (k : A -> Js B) : Js B :=
  fun s =>
    match m s with
    | (Normal a, s1) => k a s1
    | (Throw e, s1) => (Throw e, s1)
    end.

Definition throw {A : Type} (e : JsError) : Js A := fun s => (Throw e, s).

Definition gets {A : Type} (f : AppState -> A) : Js A :=
  fun s => (Normal (f s), s).

Definition modify (f : AppState -> AppState) : Js unit :=
  fun s => (Normal tt, f s).

Definition exec {A : Type} (m : Js A) (s : AppState) : AppState := snd (m s).

Declare Scope js_scope.
Delimit Scope js_scope with js.
Notation "x <- m ;; k" := (bind m (fun x => k))
  (at level 61, m at next level, right associativity) : js_scope.
Notation "m ;; k" := (bind m (fun _ => k))
  (at level 61, right associativity) : js_scope.
Local Open Scope js_scope.

(** An [await] inside a [try] block either resumes the block or makes the
    pending promise's rejection the thrown value. *)
Definition await {A : Type} (r : Settled A) : Js A :=
  match r with
  | Resolved v => ret v
  | Rejected e => throw e
  end.

(** How far a resumed [try] block of an async function gets: to its next
    [await], or to its end. *)
Inductive Progress : Type :=
| SuspendAt (p : Phase)
| Finished.

(** [try { body } catch (err) { handler } finally { fin }] around a block
    that may suspend: the handler and the [finally] block run when the block
    throws, the [finally] block alone when it ends, neither while it is
    suspended. *)
Definition tryCatchFinally (body : Js Progress) (handler : JsError -> Js unit)
           (fin : Js unit) : Js Progress :=
  fun s =>
    match body s with
    | (Normal (SuspendAt p), s1) => (Normal (SuspendAt p), s1)
    | (Normal Finished, s1) => (fin ;; ret Finished) s1
    | (Throw e, s1) =>
        match handler e s1 with
        | (Normal _, s2) => (fin ;; ret Finished) s2
        | (Throw e', s2) => (fin ;; throw e') s2
        end
    end.

(** *** Widgets, timers and tasks *)

Definition showNotification (message type : string) : Js unit :=
  modify (fun s =>
    set_notifications (notifications s ++ [mkNotification message type]) s).

Definition showLoadingIndicator : Js unit := modify (set_loadingIndicator true).
Definition hideLoadingIndicator : Js unit := modify (set_loadingIndicator false).

Definition consoleLog (line : string) : Js unit :=
  modify (fun s => set_console (console s ++ [line]) s).

(** [clearTimeout(handle)]: a handle that is unset or names a timer that has
    fired already clears nothing. *)
Definition clearTimeout (handle : option nat) : Js unit :=
  modify (fun s =>
    match handle with
    | Some id =>
        set_timers (filter (fun t => negb (Nat.eqb (timer_id t) id)) (timers s)) s
    | None => s
    end).

(** [setTimeout(callback, delay)], returning the handle.  The only callback
    the controller schedules is its debounced viewport query. *)
Definition setTimeout (delay : Z) : Js nat :=
  fun s =>
    let id := nextId s in
    (Normal id,
     set_nextId (S id) (set_timers (timers s ++ [mkTimer id delay]) s)).

(** [controller.abort()]: the request of that controller is cancelled. *)
Definition abortTask (id : nat) (t : Task) : Task :=
  if Nat.eqb (task_id t) id
  then mkTask (task_id t) (task_kind t) (task_phase t) true
  else t.

Definition abort (id : nat) : Js unit :=
  modify (fun s => set_tasks (map (abortTask id) (tasks s)) s).

Definition findTask (id : nat) (s : AppState) : option Task :=
  find (fun t => Nat.eqb (task_id t) id) (tasks s).

Definition removeTask (id : nat) : Js unit :=
  modify (fun s =>
    set_tasks (filter (fun t => negb (Nat.eqb (task_id t) id)) (tasks s)) s).

Definition suspendTask (id : nat) (p : Phase) : Js unit :=
  modify (fun s =>
    set_tasks (map (fun t => if Nat.eqb (task_id t) id
                             then mkTask (task_id t) (task_kind t) p
                                         (task_aborted t)
                             else t) (tasks s)) s).

(** The requests that are in flight: started, not settled, not cancelled. *)
Definition inFlight (s : AppState) : list Task :=
  filter (fun t => negb (task_aborted t)) (tasks s).

(** What the environment delivers to a pending [await]: a cancelled request
    rejects with [AbortError] whatever the network did. *)
Definition delivered {A : Type} (t : Task) (r : Settled A) : Settled A :=
  if task_aborted t then Rejected AbortError else r.

(** Markers for the elements that have coordinates. *)
Fixpoint markersOf (elements : list Element) : list Marker :=
  match elements with
  | [] => []
  | el :: r =>
      match element_lat el, element_lon el with
      | Some flat, Some flon =>
          mkMarker flat flon (element_name el) :: markersOf r
      | _, _ => markersOf r
      end
  end.

(** The events the environment raises. *)
Inductive Event : Type :=
| LocationFound (p : LatLng)                  (* map 'locationfound' *)
| MoveEnd (z : Q) (b : Bounds)                (* map 'moveend', with the new view *)
| TimerFired (id : nat)                       (* a pending timeout fires *)
| FetchSettled (id : nat) (r : Settled Response)       (* [fetch] settles *)
| JsonSettled (id : nat) (r : Settled (list Element))  (* [resp.json()] settles; the value is [data.elements] *)
| RefreshClicked.                             (* the refresh button *)

(** ** The controller of [src/app.js] *)
Module App.

Definition MIN_ZOOM_FOR_FETCH : Q := 10.
Definition CACHE_EXPIRE_TIME : Z := 10 * 60 * 1000.
Definition MAX_CACHE_ENTRIES : nat := 50.

Definition getDelayForZoom (z : Q) : Z :=
  if Qlt_bool z 12 then 2000
  else if Qlt_bool z 15 then 1000
  else 500.

Definition getMaxMarkersForZoom (z : Q) : nat :=
  if Qlt_bool z 12 then 50
  else if Qlt_bool z 15 then 200
  else if Qlt_bool z 17 then 500
  else 1000.

Definition area (b : Bounds) : Q :=
  (getNorth b - getSouth b) * (getEast b - getWest b).

Definition boundsOverlapSignificantly (bounds1 bounds2 : option Bounds)
  : bool :=
  match bounds1, bounds2 with
  | Some b1, Some b2 =>
      let area1 := area b1 in
      let area2 := area b2 in
      if Qlt_bool (area1 * 4) area2 then false
      else
        let intersection :=
          latLngBounds
            (Qmax (getSouth b1) (getSouth b2), Qmax (getWest b1) (getWest b2))
            (Qmin (getNorth b1) (getNorth b2), Qmin (getEast b1) (getEast b2)) in
        if negb (isValid intersection) then false
        else
          let intersectionArea := area intersection in
          Qlt_bool (Qmin area1 area2 * (7 # 10)) intersectionArea
  | _, _ => false
  end.

(** [renderMarkers(elements)].  The batches of 100 markers that the script
    spreads over animation frames are run to their end here. *)
Definition renderMarkers (elements : list Element) : Js unit :=
  z <- gets zoom ;;
  let maxMarkers := getMaxMarkersForZoom z in
  let filteredElements := firstn maxMarkers elements in
  modify (set_markerLayer []) ;;
  modify (set_window_fountains filteredElements) ;;
  match filteredElements with
  | [] => hideLoadingIndicator
  | _ =>
      modify (set_markerLayer (markersOf filteredElements)) ;;
      hideLoadingIndicator
  end.

(** The cache lookup of the debounced query:
    [cached && Date.now() - cached.timestamp < CACHE_EXPIRE_TIME]. *)
Definition cacheLookup (now : Z) (key : string) (cache : JsMap CacheEntry)
  : option CacheEntry :=
  match map_get key cache with
  | Some cached =>
      if (now - timestamp cached <? CACHE_EXPIRE_TIME)%Z then Some cached
      else None
  | None => None
  end.

(** [(a, b) => a[1].timestamp - b[1].timestamp] as an order. *)
Definition olderLeb (a b : string * CacheEntry) : bool :=
  (timestamp (snd a) - timestamp (snd b) <=? 0)%Z.

(** The entries the cache management removes (app.js lines 215-217). *)
Definition toRemove (cache : JsMap CacheEntry) : list (string * CacheEntry) :=
  let entries := cache in
  firstn (MAX_CACHE_ENTRIES / 2) (sortBy olderLeb entries).

(** Cache management (app.js lines 213-219). *)
Definition limitCache (cache : JsMap CacheEntry) : JsMap CacheEntry :=
  if Nat.leb MAX_CACHE_ENTRIES (map_size cache)
  then fold_left (fun m e => map_delete (fst e) m) (toRemove cache) cache
  else cache.

(** Cache management followed by [bboxCache.set] (app.js lines 213-221). *)
Definition cachePut (now : Z) (key : string) (elements : list Element)
           (cache : JsMap CacheEntry) : JsMap CacheEntry :=
  map_set key (mkCacheEntry elements now) (limitCache cache).

Definition failureMessage (kind : FetchKind) : string :=
  match kind with
  | Nearby _ _ _ => "Failed to load nearby water sources. Please try again."
  | Fountains _ _ =>
      "Failed to load water sources in this area. Please try again."
  end.

(** The [catch] block of both request functions. *)
Definition catchBlock (kind : FetchKind) (err : JsError) : Js unit :=
  if String.eqb (err_name err) "AbortError"
  then consoleLog "Fetch cancelled"
  else
    consoleLog (match kind with
                | Nearby _ _ _ => "Overpass radius error"
                | Fountains _ _ => "Overpass bbox error"
                end) ;;
    showNotification (failureMessage kind) "error".

(** The [finally] block of both request functions. *)
Definition finallyBlock : Js unit :=
  hideLoadingIndicator ;;
  modify (set_currentFetchController None).

(** [fetchNearby] and [fetchFountains] up to [await fetch(...)]: the
    predecessor's controller is aborted, a new controller is installed,
    the indicator is shown and the request is issued. *)
Definition startFetch (kind : FetchKind) : Js unit :=
  ctrl <- gets currentFetchController ;;
  match ctrl with
  | Some c => abort c
  | None => ret tt
  end ;;
  id <- gets nextId ;;
  modify (set_nextId (S id)) ;;
  modify (set_currentFetchController (Some id)) ;;
  showLoadingIndicator ;;
  modify (fun s => set_tasks (tasks s ++ [mkTask id kind AwaitFetch false]) s).

Definition fetchNearby (flat flon radius : Q) : Js unit :=
  startFetch (Nearby flat flon radius).

Definition fetchFountains (bounds : Bounds) (key : string) : Js unit :=
  startFetch (Fountains bounds key).

(** The [try] block from [await fetch(...)] to [await resp.json()]. *)
Definition afterFetch (r : Settled Response) : Js Progress :=
  resp <- await r ;;
  if negb (resp_ok resp)
  then throw (mkJsError "Error"
                ("Overpass API error: " ++ decimal (resp_status resp)))
  else ret (SuspendAt AwaitJson).

(** The [try] block from [await resp.json()] to its end. *)
Definition afterJson (now : Z) (kind : FetchKind)
           (r : Settled (list Element)) : Js Progress :=
  elements <- await r ;;
  match kind with
  | Nearby _ _ _ => renderMarkers elements
  | Fountains _ key =>
      modify (fun s => set_bboxCache (cachePut now key elements (bboxCache s)) s) ;;
      renderMarkers elements
  end ;;
  ret Finished.

(** A request function resumed at its pending [await]. *)
Definition resume (t : Task) (block : Js Progress) : Js unit :=
  p <- tryCatchFinally block (catchBlock (task_kind t)) finallyBlock ;;
  match p with
  | SuspendAt ph => suspendTask (task_id t) ph
  | Finished => removeTask (task_id t)
  end.

(** The [moveend] handler (app.js lines 103-145), up to [setTimeout]. *)
Definition onMoveEnd : Js unit :=
  currentZoom <- gets zoom ;;
  handle <- gets fetchTimeout ;;
  if Qlt_bool currentZoom MIN_ZOOM_FOR_FETCH
  then clearTimeout handle
  else
    clearTimeout handle ;;
    let delay := getDelayForZoom currentZoom in
    id <- setTimeout delay ;;
    modify (set_fetchTimeout (Some id)).

(** The callback given to [setTimeout]. *)
Definition onTimeout (now : Z) : Js unit :=
  bounds <- gets mapBounds ;;
  lastBounds <- gets lastFetchBounds ;;
  if boundsOverlapSignificantly lastBounds (Some bounds) then ret tt
  else
    let key := cacheKey 1 bounds in
    cache <- gets bboxCache ;;
    match cacheLookup now key cache with
    | Some cached => renderMarkers (data cached)
    | None =>
        if Qlt_bool 100 (area bounds)
        then consoleLog
               "Area too large for efficient fetching, using cached data only"
        else
          fetchFountains bounds key ;;
          modify (set_lastFetchBounds (Some bounds))
    end.

(** The ['locationfound'] handler. *)
Definition onLocationFound (p : LatLng) : Js unit :=
  modify (set_userLocation (Some p)) ;;
  modify (set_zoom 16) ;;                      (* map.setView(e.latlng, 16) *)
  fetchNearby (lat p) (lng p) 1000.

Definition handle (now : Z) (e : Event) : Js unit :=
  match e with
  | LocationFound p => onLocationFound p
  | MoveEnd z b =>
      modify (set_zoom z) ;; modify (set_mapBounds b) ;; onMoveEnd
  | TimerFired id =>
      pending <- gets timers ;;
      if existsb (fun t => Nat.eqb (timer_id t) id) pending
      then clearTimeout (Some id) ;; onTimeout now
      else ret tt
  | FetchSettled id r =>
      found <- gets (findTask id) ;;
      match found with
      | Some t =>
          match task_phase t with
          | AwaitFetch => resume t (afterFetch (delivered t r))
          | AwaitJson => ret tt
          end
      | None => ret tt
      end
  | JsonSettled id r =>
      found <- gets (findTask id) ;;
      match found with
      | Some t =>
          match task_phase t with
          | AwaitJson => resume t (afterJson now (task_kind t) (delivered t r))
          | AwaitFetch => ret tt
          end
      | None => ret tt
      end
  | RefreshClicked => modify (set_bboxCache [])
  end.

Definition step (s : AppState) (e : Z * Event) : AppState :=
  exec (handle (fst e) (snd e)) s.

(** A run: the events in order, each with the clock reading at its time. *)
Definition run (s : AppState) (events : list (Z * Event)) : AppState :=
  fold_left step events s.

End App.

(** ** The controller of [src/unnamed/part_000]

    The older variant: no zoom threshold, a fixed debounce delay, no
    overlap or area test, no [AbortController], no cache limit and no
    truncation of the rendered set. *)
Module Legacy.

Definition CACHE_EXPIRE_TIME : Z := 5 * 60 * 1000.

(** [renderMarkers(elements)] (part_000 lines 123-158). *)
Definition renderMarkers (elements : list Element) : Js unit :=
  modify (set_markerLayer []) ;;
  modify (set_window_fountains elements) ;;
  modify (set_markerLayer (markersOf elements)).

Definition cacheLookup (now : Z) (key : string) (cache : JsMap CacheEntry)
  : option CacheEntry :=
  match map_get key cache with
  | Some cached =>
      if (now - timestamp cached <? CACHE_EXPIRE_TIME)%Z then Some cached
      else None
  | None => None
  end.

(** [bboxCache.set(key, { data, timestamp })] (part_000 line 114). *)
Definition cachePut (now : Z) (key : string) (elements : list Element)
           (cache : JsMap CacheEntry) : JsMap CacheEntry :=
  map_set key (mkCacheEntry elements now) cache.

Definition failureMessage (kind : FetchKind) : string :=
  match kind with
  | Nearby _ _ _ => "Failed to load nearby water sources. Please try again."
  | Fountains _ _ =>
      "Failed to load water sources in this area. Please try again."
  end.

(** The [catch] block: every thrown value is reported. *)
Definition catchBlock (kind : FetchKind) (err : JsError) : Js unit :=
  consoleLog (match kind with
              | Nearby _ _ _ => "Overpass radius error"
              | Fountains _ _ => "Overpass bbox error"
              end) ;;
  showNotification (failureMessage kind) "error".

(** The request functions up to [await fetch(...)]: the request is issued
    and nothing else. *)
Definition startFetch (kind : FetchKind) : Js unit :=
  id <- gets nextId ;;
  modify (set_nextId (S id)) ;;
  modify (fun s => set_tasks (tasks s ++ [mkTask id kind AwaitFetch false]) s).

Definition fetchNearby (flat flon radius : Q) : Js unit :=
  startFetch (Nearby flat flon radius).

Definition fetchFountains (bounds : Bounds) (key : string) : Js unit :=
  startFetch (Fountains bounds key).

Definition afterFetch (r : Settled Response) : Js Progress :=
  resp <- await r ;;
  if negb (resp_ok resp)
  then throw (mkJsError "Error"
                ("Overpass API error: " ++ decimal (resp_status resp)))
  else ret (SuspendAt AwaitJson).

Definition afterJson (now : Z) (kind : FetchKind)
           (r : Settled (list Element)) : Js Progress :=
  elements <- await r ;;
  match kind with
  | Nearby _ _ _ => renderMarkers elements
  | Fountains _ key =>
      modify (fun s => set_bboxCache (cachePut now key elements (bboxCache s)) s) ;;
      renderMarkers elements
  end ;;
  ret Finished.

(** [try { ... } catch (err) { ... }]: there is no [finally] block. *)
Definition resume (t : Task) (block : Js Progress) : Js unit :=
  p <- tryCatchFinally block (catchBlock (task_kind t)) (ret tt) ;;
  match p with
  | SuspendAt ph => suspendTask (task_id t) ph
  | Finished => removeTask (task_id t)
  end.

(** The [moveend] handler (part_000 lines 63-79), up to [setTimeout]. *)
Definition onMoveEnd : Js unit :=
  handle <- gets fetchTimeout ;;
  clearTimeout handle ;;
  id <- setTimeout 500 ;;
  modify (set_fetchTimeout (Some id)).

(** The callback given to [setTimeout]. *)
Definition onTimeout (now : Z) : Js unit :=
  b <- gets mapBounds ;;
  let key := cacheKey 3 b in
  cache <- gets bboxCache ;;
  match cacheLookup now key cache with
  | Some cached => renderMarkers (data cached)
  | None => fetchFountains b key
  end.

Definition onLocationFound (p : LatLng) : Js unit :=
  modify (set_userLocation (Some p)) ;;
  modify (set_zoom 16) ;;
  fetchNearby (lat p) (lng p) 1000.

Definition handle (now : Z) (e : Event) : Js unit :=
  match e with
  | LocationFound p => onLocationFound p
  | MoveEnd z b =>
      modify (set_zoom z) ;; modify (set_mapBounds b) ;; onMoveEnd
  | TimerFired id =>
      pending <- gets timers ;;
      if existsb (fun t => Nat.eqb (timer_id t) id) pending
      then clearTimeout (Some id) ;; onTimeout now
      else ret tt
  | FetchSettled id r =>
      found <- gets (findTask id) ;;
      match found with
      | Some t =>
          match task_phase t with
          | AwaitFetch => resume t (afterFetch (delivered t r))
          | AwaitJson => ret tt
          end
      | None => ret tt
      end
  | JsonSettled id r =>
      found <- gets (findTask id) ;;
      match found with
      | Some t =>
          match task_phase t with
          | AwaitJson => resume t (afterJson now (task_kind t) (delivered t r))
          | AwaitFetch => ret tt
          end
      | None => ret tt
      end
  | RefreshClicked => modify (set_bboxCache [])
  end.

Definition step (s : AppState) (e : Z * Event) : AppState :=
  exec (handle (fst e) (snd e)) s.

Definition run (s : AppState) (events : list (Z * Event)) : AppState :=
  fold_left step events s.

End Legacy.

(** ** The render loop reads the published set

    [arRenderLoop] calls [drawAR(currentHeading)], which reads
    [userLocation] and [window._fountains]. *)
Definition drawFrame {P : Platform} (heading width height : Q) (s : AppState)
  : list Drawn * ArInfo :=
  drawAR heading width height (userLocation s) (window_fountains s).

(** ** A stand-in platform for examples

    Crude replacements of the external functions, enough to run the
    projector on the points of the compass: the sine of a small angle is the
    angle, the cosine is 1, [atan2] tells the four directions apart, and a
    degree is 111 km along either axis. *)
Definition testPI : Q := 355 # 113.

Definition testPlatform : Platform := {|
  distanceTo := fun a b =>
    111000 * (Qabs (lat a - lat b) + Qabs (lng a - lng b));
  degToRad := fun d => d * testPI / 180;
  radToDeg := fun r => r * 180 / testPI;
  Math_sin := fun x => x;
  Math_cos := fun _ => 1;
  Math_atan2 := fun y x =>
    if Qeq_bool y 0 then (if Qle_bool 0 x then 0 else testPI)
    else if Qlt_bool 0 y then testPI / 2 else - (testPI / 2)
|}.

(** A node with coordinates and no tags. *)
Definition nodeAt (id : Z) (flat flon : Q) : Element :=
  mkElement id (Some flat) (Some flon) None None.

(** ** Sample sessions

    A unit square of the map per visit, and the events of one visit at zoom
    16: the map moves there, the debounce timer fires, the request is
    answered with a successful response whose body holds no element.  Timer
    and request ids are drawn from one counter, so the [i]-th visit of a
    fresh session uses timer [2 i] and request [2 i + 1]. *)
Definition squareAt (i : nat) : Bounds :=
  let q := inject_Z (Z.of_nat i) in mkBounds q q (q + 1) (q + 1).

Definition visit (i : nat) : list (Z * Event) :=
  let now := Z.of_nat i in
  [(now, MoveEnd 16 (squareAt i));
   (now, TimerFired (2 * i));
   (now, FetchSettled (2 * i + 1) (Resolved (mkResponse true 200)));
   (now, JsonSettled (2 * i + 1) (Resolved []))].

Definition tour (n : nat) : list (Z * Event) := flat_map visit (seq 0 n).

(** * Properties *)

(** ** Numeric helpers *)

Lemma Qlt_bool_iff (x y : Q) : Qlt_bool x y = true <-> x < y.
Proof.
  unfold Qlt_bool. rewrite negb_true_iff.
  split; intros H.
  - apply Qnot_le_lt. intros H1. apply Qle_bool_iff in H1. congruence.
  - destruct (Qle_bool y x) eqn:E; [|reflexivity].
    apply Qle_bool_iff in E. exfalso. lra.
Qed.

Lemma Qlt_bool_false_iff (x y : Q) : Qlt_bool x y = false <-> y <= x.
Proof.
  unfold Qlt_bool. rewrite negb_false_iff. apply Qle_bool_iff.
Qed.

Lemma Qle_bool_false_iff (x y : Q) : Qle_bool x y = false <-> y < x.
Proof.
  rewrite <- Qlt_bool_iff. unfold Qlt_bool.
  destruct (Qle_bool x y); simpl; split; congruence.
Qed.

(** ** Angle normalisation *)

Example normalizeAngle_190 : normalizeAngle 190 = -170.
Proof. reflexivity. Qed.
Example normalizeAngle_m180 : normalizeAngle (-180) = 180.
Proof. reflexivity. Qed.
Example normalizeAngle_180 : normalizeAngle 180 = 180.
Proof. reflexivity. Qed.
Example normalizeAngle_725 : normalizeAngle (1451 # 2) == 11 # 2.
Proof. reflexivity. Qed.
Example normalizeAngle_out_of_fuel : normalizeAngleFuel 1 (-1000) = None.
Proof. reflexivity. Qed.

Section WhileLoop.
Context {A : Type} (cond : A -> bool) (body : A -> A).

Lemma while_loop_exit (fuel : nat) (a r : A) :
  while_loop cond body fuel a = Some r -> cond r = false.
Proof.
  revert a. induction fuel as [|n IH]; intros a; simpl;
    destruct (cond a) eqn:E; intros H; try discriminate.
  - injection H as <-. exact E.
  - eauto.
  - injection H as <-. exact E.
Qed.

Lemma while_loop_more_fuel (fuel extra : nat) (a r : A) :
  while_loop cond body fuel a = Some r ->
  while_loop cond body (fuel + extra) a = Some r.
Proof.
  revert a. induction fuel as [|n IH]; intros a; simpl.
  - destruct (cond a) eqn:E; [discriminate|].
    intros H. destruct extra; simpl; rewrite E; exact H.
  - destruct (cond a); [apply IH | trivial].
Qed.
End WhileLoop.

Lemma inject_Z_S (n : nat) :
  inject_Z (Z.of_nat (S n)) == inject_Z (Z.of_nat n) + 1.
Proof.
  rewrite Nat2Z.inj_succ. unfold Z.succ. rewrite inject_Z_plus. reflexivity.
Qed.

(** The first loop: enough fuel brings the angle above -180 by adding whole
    turns, and leaves an angle above -180 alone. *)
Lemma wrapUp_spec (n : nat) (a : Q) :
  -180 < a + 360 * inject_Z (Z.of_nat n) ->
  exists (r : Q) (k : Z),
    wrapUp n a = Some r /\ -180 < r /\ r == a + 360 * inject_Z k /\
    (a <= 180 -> r <= 180) /\ (-180 < a -> r = a).
Proof.
  unfold wrapUp. revert a. induction n as [|n IH]; intros a Hn.
  - change (inject_Z (Z.of_nat 0)) with 0 in Hn. cbn [while_loop].
    assert (Ha : -180 < a) by lra.
    apply Qle_bool_false_iff in Ha as Hb. rewrite Hb.
    exists a, 0%Z. repeat split; auto.
      change (inject_Z 0) with 0. ring.
  - cbn [while_loop]. destruct (Qle_bool a (-180)) eqn:Hb.
    + apply Qle_bool_iff in Hb.
      destruct (IH (a + 360)) as (r & k & Hr & Hlo & Heq & Hhi & Hid).
      { rewrite inject_Z_S in Hn. lra. }
      exists r, (k + 1)%Z. repeat split; auto.
      * rewrite inject_Z_plus. rewrite Heq. change (inject_Z 1) with 1. ring.
      * intros _. destruct (Qlt_le_dec (-180) (a + 360)) as [H1|H1].
        -- rewrite (Hid H1). lra.
        -- apply Hhi. lra.
      * intros H1. exfalso. lra.
    + apply Qle_bool_false_iff in Hb.
      exists a, 0%Z. repeat split; auto.
      change (inject_Z 0) with 0. ring.
Qed.

(** The second loop: enough fuel brings an angle above -180 into
    (-180, 180] by removing whole turns. *)
Lemma wrapDown_spec (n : nat) (a : Q) :
  -180 < a -> a - 360 * inject_Z (Z.of_nat n) <= 180 ->
  exists (r : Q) (k : Z),
    wrapDown n a = Some r /\ -180 < r /\ r <= 180 /\
    r == a + 360 * inject_Z k.
Proof.
  unfold wrapDown. revert a. induction n as [|n IH]; intros a Hlo Hn.
  - change (inject_Z (Z.of_nat 0)) with 0 in Hn. cbn [while_loop].
    assert (Ha : a <= 180) by lra.
    apply Qlt_bool_false_iff in Ha as Hb. rewrite Hb.
    exists a, 0%Z. repeat split; auto.
      change (inject_Z 0) with 0. ring.
  - cbn [while_loop]. destruct (Qlt_bool 180 a) eqn:Hb.
    + apply Qlt_bool_iff in Hb.
      destruct (IH (a - 360)) as (r & k & Hr & Hl & Hh & Heq).
      { lra. }
      { rewrite inject_Z_S in Hn. lra. }
      exists r, (k - 1)%Z. repeat split; auto.
      unfold Z.sub. rewrite inject_Z_plus, inject_Z_opp, Heq.
      change (inject_Z 1) with 1. ring.
    + apply Qlt_bool_false_iff in Hb.
      exists a, 0%Z. repeat split; auto.
      change (inject_Z 0) with 0. ring.
Qed.

Lemma angleFuel_covers (a : Q) :
  Qabs a <= 360 * inject_Z (Z.of_nat (angleFuel a)).
Proof.
  unfold angleFuel.
  assert (H0 : 0 <= Qabs a / 360).
  { apply Qle_shift_div_l; [reflexivity|]. pose proof (Qabs_nonneg a). lra. }
  assert (Hc : (0 <= Qceiling (Qabs a / 360))%Z).
  { pose proof (Qle_ceiling (Qabs a / 360)) as H1.
    assert (H2 : (-1 < Qceiling (Qabs a / 360))%Z).
    { rewrite Zlt_Qlt. change (inject_Z (-1)) with (-1). lra. }
    lia. }
  rewrite Z2Nat.id by exact Hc.
  pose proof (Qle_ceiling (Qabs a / 360)) as H1.
  assert (H2 : Qabs a == 360 * (Qabs a / 360)) by (field).
  rewrite H2 at 1. lra.
Qed.

(** Both loops end within [angleFuel a] iterations (or any larger fuel),
    with a result in (-180, 180] that differs from [a] by whole turns. *)
Lemma normalizeAngleFuel_enough (a : Q) (extra : nat) :
  exists (r : Q) (k : Z),
    normalizeAngleFuel (angleFuel a + extra) a = Some r /\
    normalizeAngle a = r /\
    -180 < r /\ r <= 180 /\ r == a + 360 * inject_Z k.
Proof.
  pose proof (angleFuel_covers a) as Hf.
  assert (Hup : -180 < a + 360 * inject_Z (Z.of_nat (angleFuel a))).
  { pose proof (Qle_Qabs (- a)) as H. rewrite Qabs_opp in H. lra. }
  destruct (wrapUp_spec _ _ Hup) as (r1 & k1 & Hr1 & Hlo1 & Heq1 & Hhi1 & Hid1).
  assert (Hdown : r1 - 360 * inject_Z (Z.of_nat (angleFuel a)) <= 180).
  { destruct (Qlt_le_dec 180 a) as [H|H].
    - rewrite Hid1 by lra. pose proof (Qle_Qabs a). lra.
    - pose proof (Hhi1 H). pose proof (Qabs_nonneg a). lra. }
  destruct (wrapDown_spec _ _ Hlo1 Hdown) as (r & k & Hr & Hlo & Hhi & Heq).
  assert (Hbase : normalizeAngleFuel (angleFuel a) a = Some r).
  { unfold normalizeAngleFuel. rewrite Hr1. exact Hr. }
  exists r, (k1 + k)%Z. repeat split; auto.
  - unfold normalizeAngleFuel, wrapUp, wrapDown in *.
    rewrite (while_loop_more_fuel _ _ _ extra _ _ Hr1).
    apply while_loop_more_fuel. exact Hr.
  - unfold normalizeAngle. rewrite Hbase. reflexivity.
  - rewrite Heq, Heq1, inject_Z_plus. ring.
Qed.

Lemma normalizeAngle_range (a : Q) :
  -180 < normalizeAngle a /\ normalizeAngle a <= 180.
Proof.
  destruct (normalizeAngleFuel_enough a 0) as (r & k & _ & -> & H1 & H2 & _).
  split; assumption.
Qed.

Lemma normalizeAngle_turns (a : Q) :
  exists k : Z, normalizeAngle a == a + 360 * inject_Z k.
Proof.
  destruct (normalizeAngleFuel_enough a 0) as (r & k & _ & -> & _ & _ & H).
  exists k. exact H.
Qed.

(** Two angles of (-180, 180] that differ by whole turns are equal. *)
Lemma same_turn (r1 r2 : Q) (m : Z) :
  -180 < r1 -> r1 <= 180 -> -180 < r2 -> r2 <= 180 ->
  r1 == r2 + 360 * inject_Z m -> r1 == r2.
Proof.
  intros H1 H2 H3 H4 Heq.
  assert (Hm : m = 0%Z).
  { assert (Hlt : (-1 < m)%Z).
    { rewrite Zlt_Qlt. change (inject_Z (-1)) with (-1). lra. }
    assert (Hgt : (m < 1)%Z).
    { rewrite Zlt_Qlt. change (inject_Z 1) with 1. lra. }
    lia. }
  subst m. rewrite Heq. change (inject_Z 0) with 0. ring.
Qed.

(** C6. The angle normalisation of [drawAR] ends for every angle (with
    [angleFuel x] iterations or more), its result lies in (-180, 180], and
    adding any whole number of turns to the input does not change it. *)
Theorem normalizeAngle_range_periodic (x : Q) :
  (forall extra : nat,
      normalizeAngleFuel (angleFuel x + extra) x = Some (normalizeAngle x)) /\
  -180 < normalizeAngle x /\ normalizeAngle x <= 180 /\
  (forall k : Z, normalizeAngle (x + 360 * inject_Z k) == normalizeAngle x).
Proof.
  split; [|split; [|split]].
  - intros extra.
    destruct (normalizeAngleFuel_enough x extra) as (r & k & H & -> & _).
    exact H.
  - apply normalizeAngle_range.
  - apply normalizeAngle_range.
  - intros k.
    destruct (normalizeAngle_turns (x + 360 * inject_Z k)) as (k1 & H1).
    destruct (normalizeAngle_turns x) as (k2 & H2).
    pose proof (normalizeAngle_range (x + 360 * inject_Z k)) as [Ha Hb].
    pose proof (normalizeAngle_range x) as [Hc Hd].
    apply (same_turn _ _ (k + k1 - k2)%Z); auto.
    rewrite H1, H2. unfold Z.sub. rewrite !inject_Z_plus, inject_Z_opp. ring.
Qed.

(** ** Sorting *)

Section SortingFacts.
Context {A : Type} (leb : A -> A -> bool).
Hypothesis leb_total : forall a b, leb a b = false -> leb b a = true.
Hypothesis leb_trans :
  forall a b c, leb a b = true -> leb b c = true -> leb a c = true.

Let R (a b : A) : Prop := leb a b = true.

Lemma insertBy_perm (x : A) (l : list A) :
  Permutation (x :: l) (insertBy leb x l).
Proof.
  induction l as [|y r IH]; simpl; [reflexivity|].
  destruct (leb x y); [reflexivity|].
  rewrite perm_swap. constructor. exact IH.
Qed.

Lemma sortBy_perm (l : list A) : Permutation l (sortBy leb l).
Proof.
  induction l as [|x r IH]; simpl; [constructor|].
  rewrite <- insertBy_perm. constructor. exact IH.
Qed.

Lemma sortBy_length (l : list A) : List.length (sortBy leb l) = List.length l.
Proof. symmetry. apply Permutation_length, sortBy_perm. Qed.

Lemma insertBy_sorted (x : A) (l : list A) :
  StronglySorted R l -> StronglySorted R (insertBy leb x l).
Proof.
  induction 1 as [|y r Hs IH Hall]; simpl.
  - constructor; constructor.
  - destruct (leb x y) eqn:E.
    + constructor; [constructor; assumption|].
      constructor; [exact E|].
      eapply Forall_impl; [|exact Hall].
      intros z Hz. exact (leb_trans _ _ _ E Hz).
    + constructor; [exact IH|].
      eapply Permutation_Forall; [apply insertBy_perm|].
      constructor; [apply leb_total; exact E | exact Hall].
Qed.

Lemma sortBy_sorted (l : list A) : StronglySorted R (sortBy leb l).
Proof.
  induction l as [|x r IH]; simpl; [constructor|].
  apply insertBy_sorted. exact IH.
Qed.
End SortingFacts.




(** ** ARProjector *)

Section ProjectorFacts.
Context {P : Platform}.







End ProjectorFacts.

(** The scenarios of the specification, on the stand-in platform: a point
    due north at 111 m is shown straight ahead when the user faces north and
    is culled when the user faces south. *)
Example project_due_north :
  map (fun m => (ar_id m, Qred (ar_dist m), Qred (ar_relativeAngle m)))
      (@arFountains testPlatform 0 (mkLatLng 0 0) [nodeAt 7 (1 # 1000) 0])
  = [(7%Z, 111, 0)].
Proof. vm_compute. reflexivity. Qed.

Example project_facing_south :
  @arFountains testPlatform 180 (mkLatLng 0 0) [nodeAt 7 (1 # 1000) 0] = [].
Proof. vm_compute. reflexivity. Qed.

Example project_keeps_five_nearest :
  map ar_id
      (@arFountains testPlatform 0 (mkLatLng 0 0)
         [nodeAt 1 (6 # 1000) 0; nodeAt 2 (5 # 1000) 0; nodeAt 3 (4 # 1000) 0;
          nodeAt 4 (3 # 1000) 0; nodeAt 5 (2 # 1000) 0; nodeAt 6 (1 # 1000) 0;
          nodeAt 8 (1 # 1000) 0; nodeAt 9 (1 # 10) 0])
  = [6%Z; 8%Z; 5%Z; 4%Z; 3%Z].
Proof. vm_compute. reflexivity. Qed.

(** *** Screen mapping *)

Lemma yRatio_bounds (d : Q) : 0 <= yRatio d /\ yRatio d <= 1.
Proof.
  unfold yRatio. split.
  - apply Q.le_max_l.
  - apply Q.max_lub; [lra | apply Q.le_min_l].
Qed.

Lemma yRatio_antitone (a b : Q) : a <= b -> yRatio b <= yRatio a.
Proof.
  intros H. unfold yRatio, MAX_AR_DISTANCE.
  apply Q.max_le_compat_l, Q.min_le_compat_l.
  unfold Qdiv. change (/ 1000) with (1 # 1000). lra.
Qed.

Lemma yRatio_in_range (d : Q) :
  0 <= d -> d <= MAX_AR_DISTANCE -> yRatio d == 1 - d / MAX_AR_DISTANCE.
Proof.
  unfold yRatio, MAX_AR_DISTANCE, Qdiv. change (/ 1000) with (1 # 1000).
  intros H0 H1.
  assert (Hmin : Qmin 1 (1 - d * (1 # 1000)) == 1 - d * (1 # 1000))
    by (apply Q.min_r; lra).
  rewrite (Q.max_r 0 (Qmin 1 (1 - d * (1 # 1000)))).
  - exact Hmin.
  - rewrite Hmin. lra.
Qed.

Lemma screenY_monotone (height a b : Q) :
  800 <= 7 * height -> a <= b -> screenY height a <= screenY height b.
Proof.
  intros Hh Hab. pose proof (yRatio_antitone a b Hab) as Hy.
  unfold screenY, canvasBottomY, projectionMaxY. nra.
Qed.

Lemma iconRadius_antitone (a b : Q) : a <= b -> iconRadius b <= iconRadius a.
Proof.
  intros Hab. pose proof (yRatio_antitone a b Hab). unfold iconRadius. lra.
Qed.

(** C2, the claim as stated fails.  On a canvas 1000 pixels high a point at
    distance 0 is painted at y = 300, the upper projection line, and a point
    at the maximum distance at y = 920, the bottom line: canvas ordinates
    grow downward, so the closer point is not lower on screen, and the point
    at the maximum distance is not on the upper projection line. *)
Lemma screenY_closer_not_lower :
  screenY 1000 0 == 300 /\ screenY 1000 MAX_AR_DISTANCE == 920 /\
  projectionMaxY 1000 == 300 /\ canvasBottomY 1000 == 920 /\
  ~ (forall height d1 d2 : Q,
        0 <= d1 -> d1 < d2 -> d2 <= MAX_AR_DISTANCE ->
        screenY height d2 < screenY height d1) /\
  ~ (forall height : Q,
        screenY height MAX_AR_DISTANCE == projectionMaxY height).
Proof.
  assert (H0 : screenY 1000 0 == 300) by (vm_compute; reflexivity).
  assert (H1 : screenY 1000 MAX_AR_DISTANCE == 920) by (vm_compute; reflexivity).
  assert (H2 : projectionMaxY 1000 == 300) by (vm_compute; reflexivity).
  assert (H3 : canvasBottomY 1000 == 920) by (vm_compute; reflexivity).
  split; [exact H0|]. split; [exact H1|]. split; [exact H2|].
  split; [exact H3|]. split.
  - intros H.
    assert (Habs : screenY 1000 MAX_AR_DISTANCE < screenY 1000 0).
    { apply H; unfold MAX_AR_DISTANCE; lra. }
    rewrite H0, H1 in Habs. lra.
  - intros H. specialize (H 1000). rewrite H1, H2 in H. discriminate H.
Qed.

(** C2, amended.  On a canvas higher than 800/7 pixels (so that the bottom
    line lies below the upper projection line), of two points within range
    the strictly closer one is painted strictly higher (smaller y) and with
    a strictly larger icon; a point at the maximum distance is painted on
    the bottom line with the minimum radius 10, a point at distance 0 on the
    upper projection line with radius 18; and over all distances the
    ordinate never decreases and the radius never increases with distance. *)
Theorem screen_mapping_by_distance (height d1 d2 : Q) :
  800 < 7 * height -> 0 <= d1 -> d1 < d2 -> d2 <= MAX_AR_DISTANCE ->
  screenY height d1 < screenY height d2 /\
  iconRadius d2 < iconRadius d1 /\
  screenY height MAX_AR_DISTANCE == canvasBottomY height /\
  iconRadius MAX_AR_DISTANCE == 10 /\
  screenY height 0 == projectionMaxY height /\
  iconRadius 0 == 18 /\
  (forall d, 10 <= iconRadius d /\ iconRadius d <= 18) /\
  (forall a b, a <= b ->
     screenY height a <= screenY height b /\ iconRadius b <= iconRadius a).
Proof.
  intros Hh H0 H12 H2.
  assert (Hmax : yRatio MAX_AR_DISTANCE == 0) by (vm_compute; reflexivity).
  assert (Hzero : yRatio 0 == 1) by (vm_compute; reflexivity).
  assert (Hy : yRatio d2 < yRatio d1).
  { assert (Hd1 : d1 <= MAX_AR_DISTANCE) by lra.
    assert (Hd2 : 0 <= d2) by lra.
    rewrite (yRatio_in_range d1 H0 Hd1), (yRatio_in_range d2 Hd2 H2).
    unfold MAX_AR_DISTANCE, Qdiv. change (/ 1000) with (1 # 1000). lra. }
  split; [unfold screenY, canvasBottomY, projectionMaxY; nra|].
  split; [unfold iconRadius; lra|].
  split; [unfold screenY; rewrite Hmax; ring|].
  split; [unfold iconRadius; rewrite Hmax; ring|].
  split; [unfold screenY; rewrite Hzero; ring|].
  split; [unfold iconRadius; rewrite Hzero; ring|].
  split.
  - intros d. pose proof (yRatio_bounds d). unfold iconRadius. lra.
  - intros a b Hab. split.
    + apply screenY_monotone; [lra | assumption].
    + apply iconRadius_antitone. assumption.
Qed.

Lemma screen_mapping_by_distance_witness :
  screenY 1000 100 < screenY 1000 900 /\ iconRadius 900 < iconRadius 100.
Proof.
  destruct (screen_mapping_by_distance 1000 100 900) as (H1 & H2 & _);
    [reflexivity | discriminate | reflexivity | discriminate |].
  split; assumption.
Defined.

(** ** HeadingTracker *)

(** C9. The handler resolves the heading by precedence, over all shapes of
    an orientation event: an absolute reading ([absolute] true and [alpha]
    set) wins; otherwise [webkitCompassHeading] if set (with a warning when
    [absolute] is false); otherwise a raw [alpha], which is then not
    absolute (with a warning); an event with none of them leaves the heading
    as it was.  The heading is 0 before any event and each event is applied
    to the heading left by the events before it. *)
Theorem heading_precedence (h a c : Q) (alpha webkit : option Q) :
  trackHeading [] = 0 /\
  deviceOrientationHandler (mkOrientationEvent (Some true) (Some a) webkit) h
    = (a, []) /\
  deviceOrientationHandler (mkOrientationEvent (Some true) None (Some c)) h
    = (c, []) /\
  deviceOrientationHandler (mkOrientationEvent (Some false) alpha (Some c)) h
    = (c, [WarnCompassNotAbsolute]) /\
  deviceOrientationHandler (mkOrientationEvent None alpha (Some c)) h
    = (c, []) /\
  deviceOrientationHandler (mkOrientationEvent (Some false) (Some a) None) h
    = (a, [WarnNotAbsolute]) /\
  deviceOrientationHandler (mkOrientationEvent None (Some a) None) h
    = (a, [WarnNotAbsolute]) /\
  (forall absolute,
      deviceOrientationHandler (mkOrientationEvent absolute None None) h
      = (h, [])) /\
  (forall events event,
      trackHeading (events ++ [event])
      = fst (deviceOrientationHandler event (trackHeading events))).
Proof.
  split; [reflexivity|]. split; [reflexivity|]. split; [reflexivity|].
  split; [destruct alpha; reflexivity|].
  split; [destruct alpha; reflexivity|].
  split; [reflexivity|]. split; [reflexivity|]. split.
  - intros [[|]|]; reflexivity.
  - intros events event. unfold trackHeading.
    rewrite fold_left_app. reflexivity.
Qed.

Example heading_sequence :
  trackHeading
    [mkOrientationEvent None None None;
     mkOrientationEvent (Some false) (Some 10) (Some 270);
     mkOrientationEvent (Some true) (Some 90) (Some 45);
     mkOrientationEvent (Some true) None None] = 90.
Proof. reflexivity. Qed.

(** ** Cache keys *)

(** [toFixed] fills the decimals with zeros and rounds ties away from
    zero. *)
Example toFixed_samples :
  toFixed 0 3 = "0.000"%string /\
  toFixed (1 # 128) 3 = "0.008"%string /\
  toFixed (1 # 128) 1 = "0.0"%string /\
  toFixed (52 + (3704 # 10000)) 3 = "52.370"%string /\
  toFixed (52 + (3704 # 10000)) 1 = "52.4"%string /\
  toFixed (- (17 # 4)) 1 = "-4.3"%string /\
  toFixed (- (4 + (895 # 100000))) 3 = "-4.009"%string /\
  toFixed (5 # 2) 0 = "3"%string.
Proof. vm_compute. repeat split. Qed.

(** ** SpatialCache *)

Section JsMapFacts.
Context {V : Type}.

Lemma map_get_set_same (key : string) (v : V) (m : JsMap V) :
  map_get key (map_set key v m) = Some v.
Proof.
  induction m as [|[k w] r IH]; simpl.
  - rewrite String.eqb_refl. reflexivity.
  - destruct (String.eqb k key) eqn:E; simpl; rewrite E; auto.
Qed.

Lemma map_get_set_other (key key' : string) (v : V) (m : JsMap V) :
  key' <> key -> map_get key' (map_set key v m) = map_get key' m.
Proof.
  intros Hne. induction m as [|[k w] r IH]; cbn [map_set map_get].
  - destruct (String.eqb_spec key key'); [congruence | reflexivity].
  - destruct (String.eqb_spec k key) as [->|Hk]; cbn [map_get].
    + destruct (String.eqb_spec key key'); [congruence | reflexivity].
    + destruct (String.eqb k key'); [reflexivity | exact IH].
Qed.

(** [set] adds an entry exactly when the key is new. *)
Lemma map_set_size_exact (key : string) (v : V) (m : JsMap V) :
  map_size (map_set key v m)
  = match map_get key m with
    | Some _ => map_size m
    | None => S (map_size m)
    end.
Proof.
  unfold map_size. induction m as [|[k w] r IH]; cbn [map_set map_get].
  - reflexivity.
  - destruct (String.eqb k key); cbn [List.length]; [reflexivity|].
    rewrite IH. destruct (map_get key r); reflexivity.
Qed.

(** A lookup after the entries with the keys of [gone] are filtered out. *)
Lemma map_get_kept (gone : list (string * V)) (key' : string) (m : JsMap V) :
  map_get key' (filter (keptFrom gone) m)
  = if existsb (fun r => String.eqb key' (fst r)) gone
    then None else map_get key' m.
Proof.
  induction m as [|[k w] r IH]; cbn [filter map_get].
  - destruct (existsb _ gone); reflexivity.
  - unfold keptFrom at 1. cbn [fst].
    destruct (String.eqb_spec k key') as [->|Hk].
    + destruct (existsb (fun r0 => String.eqb key' (fst r0)) gone) eqn:E;
        cbn [negb].
      * rewrite IH. reflexivity.
      * cbn [map_get]. rewrite String.eqb_refl. reflexivity.
    + destruct (existsb (fun r0 => String.eqb k (fst r0)) gone); cbn [negb].
      * exact IH.
      * cbn [map_get]. destruct (String.eqb_spec k key'); [congruence|].
        exact IH.
Qed.

Lemma map_set_size (key : string) (v : V) (m : JsMap V) :
  (map_size (map_set key v m) <= S (map_size m))%nat.
Proof.
  unfold map_size. induction m as [|[k w] r IH]; simpl.
  - lia.
  - destruct (String.eqb k key); simpl; lia.
Qed.

Lemma map_set_keys_in (key k' : string) (v : V) (m : JsMap V) :
  In k' (map_keys (map_set key v m)) -> k' = key \/ In k' (map_keys m).
Proof.
  unfold map_keys. induction m as [|[k w] r IH]; simpl.
  - intros [H|[]]; auto.
  - destruct (String.eqb k key) eqn:E; simpl.
    + auto.
    + intros [H|H]; auto. destruct (IH H); auto.
Qed.

Lemma map_set_in_other (key k : string) (v w : V) (m : JsMap V) :
  In (k, w) (map_set key v m) -> k <> key -> In (k, w) m.
Proof.
  intros Hin Hne. induction m as [|[k0 w0] r IH]; cbn [map_set] in Hin.
  - destruct Hin as [Heq|[]]. congruence.
  - destruct (String.eqb_spec k0 key) as [->|Hk].
    + destruct Hin as [Heq|Hin]; [congruence | right; exact Hin].
    + destruct Hin as [Heq|Hin]; [left; exact Heq | right; exact (IH Hin)].
Qed.

Lemma map_set_NoDup (key : string) (v : V) (m : JsMap V) :
  NoDup (map_keys m) -> NoDup (map_keys (map_set key v m)).
Proof.
  unfold map_keys. induction m as [|[k w] r IH]; simpl; intros H.
  - constructor; [intros [] | constructor].
  - destruct (String.eqb k key) eqn:E; simpl; [exact H|].
    inversion H as [|? ? Hnin Hnd]; subst.
    constructor; [|apply IH; exact Hnd].
    intros Hin. apply map_set_keys_in in Hin. destruct Hin as [->|Hin].
    + rewrite String.eqb_refl in E. discriminate.
    + exact (Hnin Hin).
Qed.

Lemma filter_keys_NoDup (p : string * V -> bool) (m : JsMap V) :
  NoDup (map_keys m) -> NoDup (map_keys (filter p m)).
Proof.
  unfold map_keys. induction m as [|e r IH]; simpl; intros H; [constructor|].
  inversion H as [|? ? Hnin Hnd]; subst.
  destruct (p e); simpl; [|apply IH; exact Hnd].
  constructor; [|apply IH; exact Hnd].
  intros Hin. apply Hnin. apply in_map_iff in Hin.
  destruct Hin as (x & Hx & Hin). apply filter_In in Hin.
  apply in_map_iff. exists x. tauto.
Qed.

(** Deleting the keys of [gone] one after the other keeps the entries whose
    key is not among them. *)
Lemma delete_all_filter (gone : list (string * V)) (m : JsMap V) :
  fold_left (fun acc e => map_delete (fst e) acc) gone m
  = filter (keptFrom gone) m.
Proof.
  revert m. induction gone as [|g r IH]; intros m; simpl.
  - unfold keptFrom. simpl. induction m as [|e m' IHm]; simpl; congruence.
  - rewrite IH. unfold map_delete.
    induction m as [|e m' IHm]; simpl; [reflexivity|].
    unfold keptFrom at 2. simpl.
    destruct (String.eqb (fst e) (fst g)); simpl.
    + exact IHm.
    + fold (keptFrom r e). destruct (keptFrom r e); simpl; congruence.
Qed.

Lemma keptFrom_not_in (gone : list (string * V)) (e : string * V) :
  keptFrom gone e = true -> ~ In e gone.
Proof.
  unfold keptFrom. rewrite negb_true_iff. intros H Hin.
  assert (Hex : existsb (fun r => String.eqb (fst e) (fst r)) gone = true).
  { apply existsb_exists. exists e. split; [exact Hin|].
    apply String.eqb_refl. }
  congruence.
Qed.

Lemma keptFrom_in (gone : list (string * V)) (e : string * V) :
  In e gone -> keptFrom gone e = false.
Proof.
  intros Hin. destruct (keptFrom gone e) eqn:E; [|reflexivity].
  exfalso. exact (keptFrom_not_in _ _ E Hin).
Qed.
End JsMapFacts.

Lemma filter_none {A : Type} (p : A -> bool) (l : list A) :
  (forall x, In x l -> p x = false) -> filter p l = [].
Proof.
  induction l as [|x r IH]; simpl; intros H; [reflexivity|].
  rewrite (H x (or_introl eq_refl)). apply IH. intros y Hy. apply H. auto.
Qed.

Lemma filter_all {A : Type} (p : A -> bool) (l : list A) :
  (forall x, In x l -> p x = true) -> filter p l = l.
Proof.
  induction l as [|x r IH]; simpl; intros H; [reflexivity|].
  rewrite (H x (or_introl eq_refl)). f_equal. apply IH.
  intros y Hy. apply H. auto.
Qed.

Lemma filter_perm {A : Type} (p : A -> bool) (l l' : list A) :
  Permutation l l' -> Permutation (filter p l) (filter p l').
Proof.
  induction 1 as [|x l l' H IH|x y l|l l' l'' H1 IH1 H2 IH2]; simpl.
  - constructor.
  - destruct (p x); [constructor|]; exact IH.
  - destruct (p x), (p y); try reflexivity. apply perm_swap.
  - etransitivity; eassumption.
Qed.

Lemma filter_length_le {A : Type} (p : A -> bool) (l : list A) :
  (List.length (filter p l) <= List.length l)%nat.
Proof.
  induction l as [|x r IH]; simpl; [lia|]. destruct (p x); simpl; lia.
Qed.

Lemma StronglySorted_split {A : Type} (R : A -> A -> Prop) (n : nat)
      (l : list A) :
  StronglySorted R l ->
  forall x y, In x (firstn n l) -> In y (skipn n l) -> R x y.
Proof.
  intros H. revert n. induction H as [|z r Hs IH Hall]; intros [|n] x y;
    simpl; try tauto.
  intros [<-|Hx] Hy.
  - rewrite Forall_forall in Hall. apply Hall.
    rewrite <- (firstn_skipn n r). apply in_or_app. right. exact Hy.
  - eapply IH; eassumption.
Qed.

Lemma NoDup_map_app_disjoint {A B : Type} (f : A -> B) (l1 l2 : list A) :
  NoDup (map f (l1 ++ l2)) ->
  forall x y, In x l1 -> In y l2 -> f x <> f y.
Proof.
  induction l1 as [|z r IH]; simpl; intros H x y Hx Hy; [contradiction|].
  inversion H as [|? ? Hnin Hnd]; subst. destruct Hx as [<-|Hx].
  - intros Heq. apply Hnin. rewrite Heq. apply in_map.
    apply in_or_app. right. exact Hy.
  - eapply IH; eassumption.
Qed.

Section AppCacheFacts.
Import App.

Lemma olderLeb_total a b : olderLeb a b = false -> olderLeb b a = true.
Proof. unfold olderLeb. rewrite Z.leb_gt, Z.leb_le. lia. Qed.

Lemma olderLeb_trans a b c :
  olderLeb a b = true -> olderLeb b c = true -> olderLeb a c = true.
Proof. unfold olderLeb. rewrite !Z.leb_le. lia. Qed.

Lemma sorted_entries_perm (cache : JsMap CacheEntry) :
  Permutation cache
    (toRemove cache ++ skipn (MAX_CACHE_ENTRIES / 2) (sortBy olderLeb cache)).
Proof.
  unfold toRemove. rewrite firstn_skipn. apply sortBy_perm.
Qed.

Lemma limitCache_small (cache : JsMap CacheEntry) :
  (map_size cache < MAX_CACHE_ENTRIES)%nat -> limitCache cache = cache.
Proof.
  intros H. unfold limitCache.
  destruct (Nat.leb_spec MAX_CACHE_ENTRIES (map_size cache)); [lia|reflexivity].
Qed.

Lemma limitCache_full (cache : JsMap CacheEntry) :
  (MAX_CACHE_ENTRIES <= map_size cache)%nat ->
  limitCache cache = filter (keptFrom (toRemove cache)) cache.
Proof.
  intros H. unfold limitCache.
  destruct (Nat.leb_spec MAX_CACHE_ENTRIES (map_size cache)); [|lia].
  apply delete_all_filter.
Qed.

(** What is left after the removal is what is left of the entries past
    the first 25 in timestamp order. *)
Lemma limitCache_perm_rest (cache : JsMap CacheEntry) :
  (MAX_CACHE_ENTRIES <= map_size cache)%nat ->
  Permutation (limitCache cache)
    (filter (keptFrom (toRemove cache))
            (skipn (MAX_CACHE_ENTRIES / 2) (sortBy olderLeb cache))).
Proof.
  intros H. rewrite (limitCache_full _ H).
  rewrite (filter_perm _ _ _ (sorted_entries_perm cache)).
  rewrite filter_app.
  rewrite (filter_none _ (toRemove cache)); [reflexivity|].
  intros x Hx. apply keptFrom_in. exact Hx.
Qed.

Lemma toRemove_length (cache : JsMap CacheEntry) :
  (MAX_CACHE_ENTRIES <= map_size cache)%nat ->
  List.length (toRemove cache) = 25%nat.
Proof.
  intros H. unfold toRemove. rewrite length_firstn, sortBy_length.
  unfold map_size, MAX_CACHE_ENTRIES in *.
  change (50 / 2)%nat with 25%nat. lia.
Qed.

Lemma limitCache_size (cache : JsMap CacheEntry) :
  (MAX_CACHE_ENTRIES <= map_size cache)%nat ->
  (map_size (limitCache cache) + 25 <= map_size cache)%nat.
Proof.
  intros H. unfold map_size.
  rewrite (Permutation_length (limitCache_perm_rest _ H)).
  pose proof (filter_length_le (keptFrom (toRemove cache))
                (skipn (MAX_CACHE_ENTRIES / 2) (sortBy olderLeb cache))) as Hl.
  rewrite length_skipn, sortBy_length in Hl.
  unfold map_size, MAX_CACHE_ENTRIES in *.
  change (50 / 2)%nat with 25%nat in *. lia.
Qed.

Lemma limitCache_oldest (cache : JsMap CacheEntry) r e :
  (MAX_CACHE_ENTRIES <= map_size cache)%nat ->
  In r (toRemove cache) -> In e (limitCache cache) ->
  (timestamp (snd r) <= timestamp (snd e))%Z.
Proof.
  intros H Hr He.
  apply (Permutation_in _ (limitCache_perm_rest _ H)) in He.
  apply filter_In in He. destruct He as [He _].
  assert (Hle : olderLeb r e = true).
  { eapply (StronglySorted_split (fun a b => olderLeb a b = true)).
    - apply (sortBy_sorted olderLeb olderLeb_total olderLeb_trans).
    - exact Hr.
    - exact He. }
  unfold olderLeb in Hle. apply Z.leb_le in Hle. lia.
Qed.

Lemma limitCache_partition (cache : JsMap CacheEntry) :
  NoDup (map_keys cache) ->
  (MAX_CACHE_ENTRIES <= map_size cache)%nat ->
  Permutation cache (toRemove cache ++ limitCache cache).
Proof.
  intros Hnd H.
  rewrite (sorted_entries_perm cache) at 1.
  apply Permutation_app_head. symmetry.
  rewrite (limitCache_perm_rest _ H).
  rewrite filter_all; [reflexivity|].
  intros y Hy. unfold keptFrom. rewrite negb_true_iff.
  destruct (existsb _ _) eqn:E; [|reflexivity]. exfalso.
  apply existsb_exists in E. destruct E as (r & Hr & Heq).
  apply String.eqb_eq in Heq.
  assert (Hnd' : NoDup (map fst (toRemove cache
                 ++ skipn (MAX_CACHE_ENTRIES / 2) (sortBy olderLeb cache)))).
  { eapply Permutation_NoDup; [|exact Hnd].
    unfold map_keys. apply Permutation_map, sorted_entries_perm. }
  exact (NoDup_map_app_disjoint fst _ _ Hnd' r y Hr Hy (eq_sym Heq)).
Qed.

Lemma limitCache_NoDup (cache : JsMap CacheEntry) :
  NoDup (map_keys cache) -> NoDup (map_keys (limitCache cache)).
Proof.
  intros H. unfold limitCache.
  destruct (Nat.leb MAX_CACHE_ENTRIES (map_size cache)); [|exact H].
  rewrite delete_all_filter. apply filter_keys_NoDup. exact H.
Qed.

(** The invariant of [bboxCache]: distinct keys and at most 50 entries. *)
Lemma cachePut_invariant now key elements (cache : JsMap CacheEntry) :
  NoDup (map_keys cache) /\ (map_size cache <= MAX_CACHE_ENTRIES)%nat ->
  NoDup (map_keys (cachePut now key elements cache)) /\
  (map_size (cachePut now key elements cache) <= MAX_CACHE_ENTRIES)%nat.
Proof.
  intros [Hnd Hsz]. unfold cachePut. split.
  - apply map_set_NoDup, limitCache_NoDup. exact Hnd.
  - pose proof (map_set_size key (mkCacheEntry elements now)
                  (limitCache cache)) as Hs.
    destruct (Nat.le_gt_cases MAX_CACHE_ENTRIES (map_size cache)) as [H|H].
    + pose proof (limitCache_size _ H). unfold MAX_CACHE_ENTRIES in *. lia.
    + rewrite (limitCache_small _ H) in *. unfold MAX_CACHE_ENTRIES in *. lia.
Qed.

(** With distinct keys the removal takes exactly 25 entries away. *)
Lemma limitCache_size_exact (cache : JsMap CacheEntry) :
  NoDup (map_keys cache) ->
  (MAX_CACHE_ENTRIES <= map_size cache)%nat ->
  (map_size (limitCache cache) + 25 = map_size cache)%nat.
Proof.
  intros Hnd H. unfold map_size.
  rewrite (Permutation_length (limitCache_partition _ Hnd H)).
  rewrite length_app. fold (map_size (limitCache cache)).
  rewrite (toRemove_length _ H). lia.
Qed.

(** What a put into a full cache leaves in the map: the entries whose key
    is none of the 25 removed, where they stood, and the key set. *)
Lemma cachePut_full now key elements (cache : JsMap CacheEntry) :
  (MAX_CACHE_ENTRIES <= map_size cache)%nat ->
  cachePut now key elements cache
  = map_set key (mkCacheEntry elements now)
      (filter (keptFrom (toRemove cache)) cache).
Proof.
  intros H. unfold cachePut. rewrite (limitCache_full _ H). reflexivity.
Qed.

Lemma cachePut_small now key elements (cache : JsMap CacheEntry) :
  (map_size cache < MAX_CACHE_ENTRIES)%nat ->
  cachePut now key elements cache
  = map_set key (mkCacheEntry elements now) cache.
Proof.
  intros H. unfold cachePut. rewrite (limitCache_small _ H). reflexivity.
Qed.

(** The other keys after a put into a full cache. *)
Lemma cachePut_full_other now key elements (cache : JsMap CacheEntry) key' :
  (MAX_CACHE_ENTRIES <= map_size cache)%nat ->
  key' <> key ->
  map_get key' (cachePut now key elements cache)
  = if existsb (fun r => String.eqb key' (fst r)) (toRemove cache)
    then None else map_get key' cache.
Proof.
  intros H Hne. rewrite (cachePut_full _ _ _ _ H).
  rewrite (map_get_set_other _ _ _ _ Hne). apply map_get_kept.
Qed.

(** The number of entries after a put into a full cache with distinct
    keys. *)
Lemma cachePut_full_size now key elements (cache : JsMap CacheEntry) :
  NoDup (map_keys cache) ->
  (MAX_CACHE_ENTRIES <= map_size cache)%nat ->
  map_size (cachePut now key elements cache)
  = (map_size cache - 25
     + if existsb (fun r => String.eqb key (fst r)) (toRemove cache)
       then 1
       else match map_get key cache with Some _ => 0 | None => 1 end)%nat.
Proof.
  intros Hnd H. pose proof (limitCache_size_exact _ Hnd H) as Hsz.
  unfold cachePut. rewrite map_set_size_exact.
  rewrite (limitCache_full _ H) in *. rewrite map_get_kept.
  destruct (existsb _ (toRemove cache)); [lia|].
  destruct (map_get key cache); lia.
Qed.
End AppCacheFacts.

(** ** Viewport fetch controller *)

(** Unfolding of the handlers down to the state they produce. *)
Ltac js_unfold :=
  unfold App.step, App.handle, App.onLocationFound, App.onMoveEnd,
    App.onTimeout, App.fetchNearby, App.fetchFountains, App.startFetch,
    App.resume, App.afterFetch, App.afterJson, App.catchBlock,
    App.finallyBlock, App.renderMarkers,
    Legacy.step, Legacy.handle, Legacy.onLocationFound, Legacy.onMoveEnd,
    Legacy.onTimeout, Legacy.fetchNearby, Legacy.fetchFountains,
    Legacy.startFetch, Legacy.resume, Legacy.afterFetch, Legacy.afterJson,
    Legacy.catchBlock, Legacy.renderMarkers,
    tryCatchFinally, await, delivered, abort, clearTimeout, setTimeout,
    removeTask, suspendTask, showNotification, showLoadingIndicator,
    hideLoadingIndicator, consoleLog, exec, bind, ret, throw, gets, modify
    in *.

Ltac js_simpl :=
  cbn [fst snd zoom mapBounds userLocation currentFetchController
       lastFetchBounds fetchTimeout timers nextId bboxCache window_fountains
       markerLayer notifications loadingIndicator tasks console
       set_zoom set_mapBounds set_userLocation set_currentFetchController
       set_lastFetchBounds set_fetchTimeout set_timers set_nextId
       set_bboxCache set_window_fountains set_markerLayer set_notifications
       set_loadingIndicator set_tasks set_console
       task_id task_kind task_phase task_aborted err_name err_message
       resp_ok resp_status] in *.

Ltac js_case :=
  match goal with
  | |- context [match ?x with _ => _ end] =>
      lazymatch x with
      | context [match _ with _ => _ end] => fail
      | _ => destruct x eqn:?
      end
  end.

Ltac js_run := js_unfold; js_simpl; repeat (js_case; js_simpl).

(** Every event leaves the cache as it is, clears it, or puts one entry. *)
Lemma App_step_cache (s : AppState) (e : Z * Event) :
  bboxCache (App.step s e) = bboxCache s \/
  bboxCache (App.step s e) = [] \/
  exists now key elements,
    bboxCache (App.step s e) = App.cachePut now key elements (bboxCache s).
Proof.
  destruct e as [now ev]. destruct ev; js_run; eauto 8.
Qed.

(** In every run of [app.js] the cache has distinct keys and at most 50
    entries. *)
Lemma App_run_cache_invariant (s : AppState) (events : list (Z * Event)) :
  NoDup (map_keys (bboxCache s)) /\
  (map_size (bboxCache s) <= App.MAX_CACHE_ENTRIES)%nat ->
  NoDup (map_keys (bboxCache (App.run s events))) /\
  (map_size (bboxCache (App.run s events)) <= App.MAX_CACHE_ENTRIES)%nat.
Proof.
  revert s. induction events as [|e r IH]; intros s H; [exact H|].
  cbn [App.run fold_left]. apply IH.
  destruct (App_step_cache s e) as [-> | [-> | (now & key & els & ->)]].
  - exact H.
  - split; [constructor | cbn; unfold App.MAX_CACHE_ENTRIES; lia].
  - apply cachePut_invariant. exact H.
Qed.

Example app_tour_stays_bounded :
  map_size (bboxCache (App.run (initialState 2 (squareAt 0)) (tour 51)))
  = 26%nat.
Proof. vm_compute. reflexivity. Qed.

(** C4, the claim as stated fails for the older variant: it has no maximum
    and evicts nothing.  After 51 visits to 51 different squares of the map
    its cache holds 51 entries. *)
Lemma legacy_cache_exceeds_maximum :
  map_size (bboxCache (Legacy.run (initialState 2 (squareAt 0)) (tour 51)))
  = 51%nat /\
  ~ (map_size (bboxCache (Legacy.run (initialState 2 (squareAt 0)) (tour 51)))
     <= App.MAX_CACHE_ENTRIES)%nat.
Proof.
  assert (H : map_size
                (bboxCache (Legacy.run (initialState 2 (squareAt 0)) (tour 51)))
              = 51%nat) by (vm_compute; reflexivity).
  split; [exact H|]. rewrite H. unfold App.MAX_CACHE_ENTRIES. lia.
Qed.

(** C4, amended to the variant that has a maximum.  In every run of
    [app.js] the cache has distinct keys and holds at most 50 entries,
    before and after any put, and after the put the key maps to the new
    entry.  A put into a cache that holds 50 entries (or more) first removes
    the 25 entries that come first in timestamp order, none of them newer
    than an entry that stays, and then sets the key: the map after the put
    is the entries whose key is none of the 25 removed, in the order they
    had, with the key set; every other key is looked up as before unless it
    is one of the 25, every entry under another key is at least as new as
    every removed one, and the map holds the 25 entries that stayed plus
    one when the key is not among them.  A put into a cache below the
    maximum removes nothing: it is the plain [set], and the size grows by
    one exactly when the key is new. *)
Theorem cache_put_bounded_evicts_oldest
        (z : Q) (b : Bounds) (events : list (Z * Event))
        (now : Z) (key : string) (elements : list Element) :
  let cache := bboxCache (App.run (initialState z b) events) in
  let entry := mkCacheEntry elements now in
  let after := App.cachePut now key elements cache in
  (map_size cache <= App.MAX_CACHE_ENTRIES)%nat /\
  (map_size after <= App.MAX_CACHE_ENTRIES)%nat /\
  map_get key after = Some entry /\
  NoDup (map_keys after) /\
  ((App.MAX_CACHE_ENTRIES <= map_size cache)%nat ->
     List.length (App.toRemove cache) = 25%nat /\
     Permutation cache (App.toRemove cache ++ App.limitCache cache) /\
     (forall r e, In r (App.toRemove cache) -> In e (App.limitCache cache) ->
                  (timestamp (snd r) <= timestamp (snd e))%Z) /\
     after = map_set key entry
               (filter (keptFrom (App.toRemove cache)) cache) /\
     (forall key', key' <> key ->
        map_get key' after
        = if existsb (fun r => String.eqb key' (fst r)) (App.toRemove cache)
          then None else map_get key' cache) /\
     (forall r k e, In r (App.toRemove cache) -> In (k, e) after ->
                    k <> key -> (timestamp (snd r) <= timestamp e)%Z) /\
     map_size after
     = (25 + if existsb (fun r => String.eqb key (fst r)) (App.toRemove cache)
             then 1
             else match map_get key cache with
                  | Some _ => 0
                  | None => 1
                  end)%nat) /\
  ((map_size cache < App.MAX_CACHE_ENTRIES)%nat ->
     App.limitCache cache = cache /\
     after = map_set key entry cache /\
     (forall key', key' <> key -> map_get key' after = map_get key' cache) /\
     map_size after
     = match map_get key cache with
       | Some _ => map_size cache
       | None => S (map_size cache)
       end).
Proof.
  intros cache entry after.
  assert (Hinv : NoDup (map_keys cache) /\
                 (map_size cache <= App.MAX_CACHE_ENTRIES)%nat).
  { apply App_run_cache_invariant. split; [constructor|].
    cbn. unfold App.MAX_CACHE_ENTRIES. lia. }
  destruct Hinv as [Hnd Hsz].
  split; [exact Hsz|].
  split; [apply cachePut_invariant; split; assumption|].
  split; [apply map_get_set_same|].
  split; [apply cachePut_invariant; split; assumption|].
  split.
  - intros Hfull.
    split; [apply toRemove_length; exact Hfull|].
    split; [apply limitCache_partition; assumption|].
    split; [intros r e; apply limitCache_oldest; exact Hfull|].
    split; [apply cachePut_full; exact Hfull|].
    split; [intros key' Hne; apply cachePut_full_other; assumption|].
    split.
    + intros r k e Hr Hin Hne.
      apply (limitCache_oldest cache r (k, e) Hfull Hr).
      exact (map_set_in_other _ _ _ _ _ Hin Hne).
    + unfold after. rewrite (cachePut_full_size _ _ _ _ Hnd Hfull).
      unfold App.MAX_CACHE_ENTRIES in *.
      replace (map_size cache - 25)%nat with 25%nat by lia. reflexivity.
  - intros Hsmall.
    split; [apply limitCache_small; exact Hsmall|].
    split; [apply cachePut_small; exact Hsmall|].
    split.
    + intros key' Hne. unfold after.
      rewrite (cachePut_small _ _ _ _ Hsmall).
      apply map_get_set_other. exact Hne.
    + unfold after. rewrite (cachePut_small _ _ _ _ Hsmall).
      apply map_set_size_exact.
Qed.

(** A run that fills the cache with 50 entries: the put that follows takes
    25 of them away and leaves 26 entries. *)
Lemma cache_put_bounded_evicts_oldest_witness :
  let cache := bboxCache (App.run (initialState 2 (squareAt 0)) (tour 50)) in
  (App.MAX_CACHE_ENTRIES <= map_size cache)%nat /\
  List.length (App.toRemove cache) = 25%nat /\
  map_size (App.cachePut 0 EmptyString [] cache) = 26%nat.
Proof.
  intros cache.
  assert (Hfull : (App.MAX_CACHE_ENTRIES <= map_size cache)%nat)
    by (vm_compute; apply le_n).
  split; [exact Hfull|].
  destruct (cache_put_bounded_evicts_oldest
              2 (squareAt 0) (tour 50) 0 EmptyString [])
    as (_ & _ & _ & _ & Hput & _).
  destruct (Hput Hfull) as (Hlen & _ & _ & _ & _ & _ & Hsize).
  split; [exact Hlen|].
  etransitivity; [exact Hsize|]. vm_compute. reflexivity.
Defined.

(** ** Cache lookup *)

(** C5. The lookup of the debounced query returns the entry stored under
    the key exactly when there is one and it is younger than the expiry
    time, and nothing otherwise; an entry put at [t0] is returned up to
    [t0 + CACHE_EXPIRE_TIME - 1] and is not returned 1 ms after the expiry
    time has passed (nor at the expiry time itself). *)
Theorem cache_lookup_expiry
        (now t0 : Z) (key : string) (elements : list Element)
        (cache : JsMap CacheEntry) :
  (forall e, App.cacheLookup now key cache = Some e <->
             map_get key cache = Some e /\
             (now - timestamp e < App.CACHE_EXPIRE_TIME)%Z) /\
  (App.cacheLookup now key cache = None <->
   forall e, map_get key cache = Some e ->
             (App.CACHE_EXPIRE_TIME <= now - timestamp e)%Z) /\
  App.cacheLookup (t0 + App.CACHE_EXPIRE_TIME + 1) key
                  (App.cachePut t0 key elements cache) = None /\
  App.cacheLookup (t0 + App.CACHE_EXPIRE_TIME) key
                  (App.cachePut t0 key elements cache) = None /\
  App.cacheLookup (t0 + App.CACHE_EXPIRE_TIME - 1) key
                  (App.cachePut t0 key elements cache)
    = Some (mkCacheEntry elements t0).
Proof.
  assert (Hput : forall t, App.cacheLookup t key (App.cachePut t0 key elements cache)
                 = if (t - t0 <? App.CACHE_EXPIRE_TIME)%Z
                   then Some (mkCacheEntry elements t0) else None).
  { intros t. unfold App.cacheLookup, App.cachePut.
    rewrite map_get_set_same. reflexivity. }
  split; [|split; [|split; [|split]]].
  - intros e. unfold App.cacheLookup.
    destruct (map_get key cache) as [c|]; [|split; [discriminate | intros [H _]; discriminate]].
    destruct (Z.ltb_spec (now - timestamp c) App.CACHE_EXPIRE_TIME).
    + split; [intros H0; injection H0 as <-; auto | intros [H0 _]; exact H0].
    + split; [discriminate|]. intros [H0 H1]. injection H0 as <-. lia.
  - unfold App.cacheLookup.
    destruct (map_get key cache) as [c|]; [|split; [discriminate | reflexivity]].
    destruct (Z.ltb_spec (now - timestamp c) App.CACHE_EXPIRE_TIME).
    + split; [discriminate|]. intros H0. specialize (H0 c eq_refl). lia.
    + split; [|reflexivity]. intros _ e H0. injection H0 as <-. exact H.
  - rewrite Hput.
    destruct (Z.ltb_spec (t0 + App.CACHE_EXPIRE_TIME + 1 - t0) App.CACHE_EXPIRE_TIME);
      [lia | reflexivity].
  - rewrite Hput.
    destruct (Z.ltb_spec (t0 + App.CACHE_EXPIRE_TIME - t0) App.CACHE_EXPIRE_TIME);
      [lia | reflexivity].
  - rewrite Hput.
    destruct (Z.ltb_spec (t0 + App.CACHE_EXPIRE_TIME - 1 - t0) App.CACHE_EXPIRE_TIME);
      [reflexivity | lia].
Qed.

Lemma cache_lookup_expiry_witness :
  App.cacheLookup 600001 "k" [("k"%string, mkCacheEntry [] 0)] = None.
Proof.
  destruct (cache_lookup_expiry 600001 0 "k" []
              [("k"%string, mkCacheEntry [] 0)]) as (_ & H & _).
  apply H. intros e He. injection He as <-. vm_compute. discriminate.
Defined.

(** ** One fetch at a time *)

Lemma inFlight_abort (c : nat) (l : list Task) :
  filter (fun t => negb (task_aborted t)) (map (abortTask c) l)
  = filter (fun t => negb (Nat.eqb (task_id t) c))
           (filter (fun t => negb (task_aborted t)) l).
Proof.
  induction l as [|t r IH]; [reflexivity|].
  cbn [map filter]. rewrite IH. unfold abortTask.
  destruct (Nat.eqb (task_id t) c) eqn:E; cbn [task_aborted negb];
    destruct (task_aborted t); cbn [negb filter]; rewrite ?E; cbn [negb];
    reflexivity.
Qed.

Example app_aborts_the_named_predecessor :
  map task_id
      (inFlight (App.run (initialState 16 (squareAt 0))
         [(0%Z, MoveEnd 16 (squareAt 0)); (0%Z, TimerFired 0);
          (1%Z, MoveEnd 16 (squareAt 1)); (1%Z, TimerFired 2)]))
  = [3%nat].
Proof. vm_compute. reflexivity. Qed.

(** C3, the claim as stated fails in both variants.  In [app.js] the second
    request aborts the first, but when the aborted first call ends its
    [finally] block clears [currentFetchController], which by then names the
    second request; the third request finds no controller to abort and the
    second and third requests are in flight together.  The older variant
    aborts nothing: two requests started one after the other are in flight
    together. *)
Lemma two_fetches_in_flight :
  map task_id
      (inFlight (App.run (initialState 16 (squareAt 0))
         [(0%Z, MoveEnd 16 (squareAt 0)); (0%Z, TimerFired 0);
          (1%Z, MoveEnd 16 (squareAt 1)); (1%Z, TimerFired 2);
          (2%Z, FetchSettled 1 (Rejected AbortError));
          (3%Z, MoveEnd 16 (squareAt 2)); (3%Z, TimerFired 4)]))
  = [3%nat; 5%nat] /\
  map task_id
      (inFlight (Legacy.run (initialState 16 (squareAt 0))
         [(0%Z, MoveEnd 16 (squareAt 0)); (0%Z, TimerFired 0);
          (1%Z, MoveEnd 16 (squareAt 1)); (1%Z, TimerFired 2)]))
  = [1%nat; 3%nat].
Proof. split; vm_compute; reflexivity. Qed.

(** C3, amended.  In [app.js] a request function that starts while
    [currentFetchController] names a controller aborts that controller
    before anything else: the request it issues starts from the state in
    which the named request is cancelled, the requests in flight afterwards
    are the new one and those that were in flight under another name, and
    the handle names the new request.  So when the handle names every
    request in flight, the new request is the only one in flight.  The older
    variant cancels nothing: its new request joins those in flight. *)
Theorem startFetch_aborts_named_predecessor
        (kind : FetchKind) (s : AppState) (c : nat) :
  currentFetchController s = Some c ->
  let request := mkTask (nextId s) kind AwaitFetch false in
  exec (App.startFetch kind) s
    = exec (App.startFetch kind)
           (set_currentFetchController None (exec (abort c) s)) /\
  inFlight (exec (abort c) s)
    = filter (fun t => negb (Nat.eqb (task_id t) c)) (inFlight s) /\
  inFlight (exec (App.startFetch kind) s)
    = filter (fun t => negb (Nat.eqb (task_id t) c)) (inFlight s) ++ [request] /\
  currentFetchController (exec (App.startFetch kind) s) = Some (nextId s) /\
  ((forall t, In t (inFlight s) -> task_id t = c) ->
   inFlight (exec (App.startFetch kind) s) = [request]) /\
  inFlight (exec (Legacy.startFetch kind) s) = inFlight s ++ [request].
Proof.
  intros Hc request.
  assert (Hfl : inFlight (exec (App.startFetch kind) s)
                = filter (fun t => negb (Nat.eqb (task_id t) c)) (inFlight s)
                  ++ [request]).
  { unfold inFlight. js_unfold. rewrite Hc. js_simpl.
    rewrite filter_app, inFlight_abort. reflexivity. }
  split; [|split; [|split; [|split; [|split]]]].
  - js_unfold. rewrite Hc. js_simpl. reflexivity.
  - unfold inFlight. js_unfold. js_simpl. apply inFlight_abort.
  - exact Hfl.
  - js_unfold. rewrite Hc. js_simpl. reflexivity.
  - intros Hall. rewrite Hfl. rewrite filter_none; [reflexivity|].
    intros t Ht. rewrite (Hall t Ht), Nat.eqb_refl. reflexivity.
  - unfold inFlight. js_unfold. js_simpl. rewrite filter_app. reflexivity.
Qed.

Lemma startFetch_aborts_named_predecessor_witness :
  let s := App.run (initialState 16 (squareAt 0))
                   [(0%Z, MoveEnd 16 (squareAt 0)); (0%Z, TimerFired 0)] in
  inFlight (exec (App.startFetch (Nearby 0 0 1000)) s)
  = [mkTask 2 (Nearby 0 0 1000) AwaitFetch false].
Proof.
  intros s.
  destruct (startFetch_aborts_named_predecessor (Nearby 0 0 1000) s 1 eq_refl)
    as (_ & _ & _ & _ & H & _).
  apply H. intros t Ht. vm_compute in Ht.
  destruct Ht as [<-|[]]. reflexivity.
Defined.

(** ** Low zoom *)

(** In every run of [app.js] a pending timer is the one [fetchTimeout]
    names. *)
Lemma App_step_timers (s : AppState) (e : Z * Event) :
  (forall tm, In tm (timers s) -> fetchTimeout s = Some (timer_id tm)) ->
  forall tm, In tm (timers (App.step s e)) ->
             fetchTimeout (App.step s e) = Some (timer_id tm).
Proof.
  intros Hinv. destruct e as [now ev].
  destruct ev; js_run; intros tm Htm;
    try (apply in_app_iff in Htm; destruct Htm as [Htm|[<-|[]]];
         [|reflexivity]);
    try (apply filter_In in Htm; destruct Htm as [Htm Hne]);
    pose proof (Hinv tm Htm) as Hh;
    try congruence;
    try (injection Hh as ->; rewrite Nat.eqb_refl in Hne; discriminate).
Qed.

Lemma App_run_timers (s : AppState) (events : list (Z * Event)) :
  (forall tm, In tm (timers s) -> fetchTimeout s = Some (timer_id tm)) ->
  forall tm, In tm (timers (App.run s events)) ->
             fetchTimeout (App.run s events) = Some (timer_id tm).
Proof.
  revert s. induction events as [|e r IH]; intros s H; [exact H|].
  cbn [App.run fold_left]. apply IH. apply App_step_timers. exact H.
Qed.

Lemma App_timer_without_schedule (s : AppState) (now : Z) (id : nat) :
  timers s = [] -> App.step s (now, TimerFired id) = s.
Proof.
  intros H. js_unfold. js_simpl. rewrite H. reflexivity.
Qed.

Lemma App_low_zoom_frame (s : AppState) (now : Z) (z : Q) (b : Bounds) :
  z < App.MIN_ZOOM_FOR_FETCH ->
  let s' := App.step s (now, MoveEnd z b) in
  timers s'
    = match fetchTimeout s with
      | Some id => filter (fun t => negb (Nat.eqb (timer_id t) id)) (timers s)
      | None => timers s
      end /\
  tasks s' = tasks s /\ nextId s' = nextId s /\
  bboxCache s' = bboxCache s /\ window_fountains s' = window_fountains s.
Proof.
  intros Hz. apply Qlt_bool_iff in Hz.
  js_unfold. js_simpl. rewrite Hz. js_simpl.
  destruct (fetchTimeout s); js_simpl; repeat split; reflexivity.
Qed.

(** C8, the claim as stated fails for the older variant, which has no zoom
    threshold: at zoom 2 its [moveend] handler schedules the debounced query
    (timer 0), and when the timer fires the query issues a request
    (request 1). *)
Lemma legacy_fetches_at_low_zoom :
  2 < App.MIN_ZOOM_FOR_FETCH /\
  map timer_id
      (timers (Legacy.run (initialState 2 (squareAt 0))
                          [(0%Z, MoveEnd 2 (squareAt 0))]))
  = [0%nat] /\
  map task_id
      (inFlight (Legacy.run (initialState 2 (squareAt 0))
                            [(0%Z, MoveEnd 2 (squareAt 0));
                             (500%Z, TimerFired 0)]))
  = [1%nat].
Proof. split; [reflexivity|]. split; vm_compute; reflexivity. Qed.

(** C8, amended to the variant that has a threshold.  In every run of
    [app.js], a [moveend] event at a zoom below 10 leaves no timer pending,
    starts no request and changes neither the cache nor the published set;
    as no timer is pending, no debounced query can fire afterwards. *)
Theorem low_zoom_moveend_is_idle
        (z0 : Q) (b0 : Bounds) (events : list (Z * Event))
        (now : Z) (z : Q) (b : Bounds) :
  z < App.MIN_ZOOM_FOR_FETCH ->
  let s := App.run (initialState z0 b0) events in
  let s' := App.step s (now, MoveEnd z b) in
  timers s' = [] /\ tasks s' = tasks s /\ nextId s' = nextId s /\
  bboxCache s' = bboxCache s /\ window_fountains s' = window_fountains s /\
  (forall now' id, App.step s' (now', TimerFired id) = s').
Proof.
  intros Hz s s'.
  destruct (App_low_zoom_frame s now z b Hz) as (Ht & Hk & Hn & Hc & Hf).
  fold s' in Ht, Hk, Hn, Hc, Hf.
  assert (Hinv : forall tm, In tm (timers s) ->
                            fetchTimeout s = Some (timer_id tm)).
  { apply App_run_timers. intros tm []. }
  assert (Hnone : timers s' = []).
  { rewrite Ht. destruct (fetchTimeout s) as [h|] eqn:Eh.
    - apply filter_none. intros tm Htm. pose proof (Hinv tm Htm) as H.
      injection H as ->. rewrite Nat.eqb_refl. reflexivity.
    - destruct (timers s) as [|tm r]; [reflexivity|].
      discriminate (Hinv tm (or_introl eq_refl)). }
  repeat split; try assumption.
  intros now' id. apply App_timer_without_schedule. exact Hnone.
Qed.

Lemma low_zoom_moveend_is_idle_witness :
  timers (App.step (App.run (initialState 16 (squareAt 0))
                            [(0%Z, MoveEnd 16 (squareAt 0))])
                   (1%Z, MoveEnd 9 (squareAt 0))) = [].
Proof.
  apply (low_zoom_moveend_is_idle 16 (squareAt 0)
           [(0%Z, MoveEnd 16 (squareAt 0))] 1 9 (squareAt 0)).
  reflexivity.
Defined.

Example high_zoom_moveend_schedules :
  timers (App.run (initialState 16 (squareAt 0)) [(0%Z, MoveEnd 16 (squareAt 0))])
  = [mkTimer 0 500].
Proof. vm_compute. reflexivity. Qed.

(** ** How a fetch ends *)

Lemma findTask_id (id : nat) (s : AppState) (t : Task) :
  findTask id s = Some t -> task_id t = id.
Proof.
  unfold findTask. intros H. apply find_some in H. destruct H as [_ H].
  apply Nat.eqb_eq. exact H.
Qed.

Ltac name_cases :=
  repeat match goal with
         | H : String.eqb _ _ = true |- _ => apply String.eqb_eq in H
         | H : String.eqb _ _ = false |- _ => apply String.eqb_neq in H
         end.

(** C7.  When the pending [await] of a request function throws [e] (the
    promise was rejected, or the response was not ok), then in both variants
    the published set, the cache and the marker layer are left as they
    were.  In [app.js] a thrown [AbortError] shows no notification, any
    other thrown value shows the error notification of the request
    function, and a cancelled request always throws [AbortError]; the older
    variant, which cannot cancel, shows the error notification for every
    thrown value. *)
Theorem fetch_failure_handling
        (s : AppState) (now : Z) (id : nat) (t : Task)
        (rf : Settled Response) (rj : Settled (list Element)) (e : JsError) :
  findTask id s = Some t ->
  let ev := match task_phase t with
            | AwaitFetch => FetchSettled id rf
            | AwaitJson => JsonSettled id rj
            end in
  let block := match task_phase t with
               | AwaitFetch => App.afterFetch (delivered t rf)
               | AwaitJson => App.afterJson now (task_kind t) (delivered t rj)
               end in
  let blockL := match task_phase t with
                | AwaitFetch => Legacy.afterFetch rf
                | AwaitJson => Legacy.afterJson now (task_kind t) rj
                end in
  (fst (block s) = Throw e ->
   let s' := App.step s (now, ev) in
   window_fountains s' = window_fountains s /\
   bboxCache s' = bboxCache s /\
   markerLayer s' = markerLayer s /\
   findTask id s' = None /\
   (err_name e = "AbortError"%string -> notifications s' = notifications s) /\
   (err_name e <> "AbortError"%string ->
    notifications s'
    = notifications s
      ++ [mkNotification (App.failureMessage (task_kind t)) "error"]) /\
   (task_aborted t = true -> e = AbortError)) /\
  (task_aborted t = false -> fst (blockL s) = Throw e ->
   let s' := Legacy.step s (now, ev) in
   window_fountains s' = window_fountains s /\
   bboxCache s' = bboxCache s /\
   markerLayer s' = markerLayer s /\
   notifications s'
   = notifications s
     ++ [mkNotification (Legacy.failureMessage (task_kind t)) "error"]).
Proof.
  intros Hfind ev block blockL. subst ev block blockL.
  pose proof (findTask_id _ _ _ Hfind) as Hid.
  assert (Hgone : forall l : list Task,
            find (fun t0 => Nat.eqb (task_id t0) id)
                 (filter (fun t0 => negb (Nat.eqb (task_id t0) (task_id t))) l)
            = None).
  { intros l. rewrite Hid. induction l as [|x r IH]; [reflexivity|].
    cbn [filter]. destruct (Nat.eqb (task_id x) id) eqn:E; cbn [negb];
      [exact IH | cbn [find]; rewrite E; exact IH]. }
  split.
  - intros Hthrow s'. subst s'.
    destruct (task_phase t) eqn:Hph; js_unfold; js_simpl;
      rewrite Hfind; js_simpl; rewrite Hph; js_simpl;
      repeat (js_case; js_simpl); name_cases;
      try discriminate;
      try (injection Hthrow as <-);
      unfold findTask; js_simpl;
      repeat split; try reflexivity; try apply Hgone;
      try congruence; try (intros; exfalso; congruence);
      try (intros Habs; cbn in Habs; congruence).
  - intros Hna Hthrow s'. subst s'.
    destruct (task_phase t) eqn:Hph; js_unfold; js_simpl;
      rewrite Hfind; js_simpl; rewrite Hph; js_simpl; rewrite ?Hna in *;
      repeat (js_case; js_simpl);
      try discriminate;
      repeat split; reflexivity.
Qed.

(** A request that fails on the network: the notification is shown and the
    published set stays. *)
Lemma fetch_failure_handling_witness :
  let s := App.run (initialState 16 (squareAt 0))
                   [(0%Z, MoveEnd 16 (squareAt 0)); (0%Z, TimerFired 0)] in
  let s' := App.step s (1%Z, FetchSettled 1
                               (Rejected (mkJsError "TypeError" "Failed to fetch"))) in
  window_fountains s' = window_fountains s /\
  notifications s'
  = [mkNotification
       "Failed to load water sources in this area. Please try again." "error"].
Proof.
  intros s s'.
  destruct (fetch_failure_handling s 1 1
              (mkTask 1 (Fountains (squareAt 0) (cacheKey 1 (squareAt 0)))
                      AwaitFetch false)
              (Rejected (mkJsError "TypeError" "Failed to fetch"))
              (Resolved []) (mkJsError "TypeError" "Failed to fetch")
              eq_refl) as [H _].
  destruct (H eq_refl) as (Hf & _ & _ & _ & _ & Hn & _).
  split; [exact Hf|]. apply Hn. discriminate.
Defined.

Example cancelled_fetch_is_silent :
  let s := App.run (initialState 16 (squareAt 0))
                   [(0%Z, MoveEnd 16 (squareAt 0)); (0%Z, TimerFired 0);
                    (1%Z, MoveEnd 16 (squareAt 1)); (1%Z, TimerFired 2);
                    (2%Z, FetchSettled 1 (Resolved (mkResponse true 200)))] in
  notifications s = [] /\ bboxCache s = [] /\ window_fountains s = [] /\
  console s = ["Fetch cancelled"%string] /\
  currentFetchController s = None /\ loadingIndicator s = false /\
  map task_id (inFlight s) = [3%nat].
Proof. vm_compute. repeat split. Qed.

(** ** The published set *)

Lemma getMaxMarkersForZoom_bound (z : Q) :
  (App.getMaxMarkersForZoom z <= 1000)%nat.
Proof.
  unfold App.getMaxMarkersForZoom.
  destruct (Qlt_bool z 12); [lia|].
  destruct (Qlt_bool z 15); [lia|].
  destruct (Qlt_bool z 17); lia.
Qed.

Lemma App_renderMarkers_published (elements : list Element) (s : AppState) :
  window_fountains (exec (App.renderMarkers elements) s)
  = firstn (App.getMaxMarkersForZoom (zoom s)) elements /\
  userLocation (exec (App.renderMarkers elements) s) = userLocation s /\
  zoom (exec (App.renderMarkers elements) s) = zoom s.
Proof.
  js_unfold. js_simpl.
  destruct (firstn (App.getMaxMarkersForZoom (zoom s)) elements) eqn:E;
    js_simpl; repeat split; reflexivity.
Qed.

(** C10.  In [app.js], rendering a list of elements publishes its first
    [getMaxMarkersForZoom(zoom)] elements, at most 1000, as
    [window._fountains]; this holds for the elements of a successful
    response, whichever request function fetched them.  The next frame of
    the AR view projects this truncated list, and when no marker is in view
    its count of sources is the length of the truncated list. *)
Theorem published_set_is_truncated
        {P : Platform} (s : AppState) (elements : list Element)
        (heading width height : Q) (now : Z) (id : nat) (t : Task) :
  let limit := App.getMaxMarkersForZoom (zoom s) in
  let shown := firstn limit elements in
  let s1 := exec (App.renderMarkers elements) s in
  window_fountains s1 = shown /\
  (List.length (window_fountains s1) <= limit)%nat /\
  (limit <= 1000)%nat /\
  drawFrame heading width height s1
    = drawAR heading width height (userLocation s) shown /\
  (forall user,
      userLocation s = Some user ->
      arFountains heading user shown = [] ->
      snd (drawFrame heading width height s1)
      = if Nat.ltb 0 (List.length shown)
        then InfoNoneInView (List.length shown) else InfoNoneFound) /\
  (findTask id s = Some t -> task_phase t = AwaitJson ->
   task_aborted t = false ->
   window_fountains (App.step s (now, JsonSettled id (Resolved elements)))
   = shown).
Proof.
  intros limit shown s1.
  destruct (App_renderMarkers_published elements s) as (Hw & Hu & _).
  fold s1 in Hw, Hu. fold limit in Hw. fold shown in Hw.
  split; [exact Hw|].
  split; [rewrite Hw; apply firstn_le_length|].
  split; [apply getMaxMarkersForZoom_bound|].
  split; [unfold drawFrame; rewrite Hw, Hu; reflexivity|].
  split.
  - intros user Huser Hnone. unfold drawFrame. rewrite Hw, Hu, Huser.
    cbn [drawAR snd]. rewrite Hnone. reflexivity.
  - intros Hfind Hph Hna. subst shown limit.
    js_unfold. js_simpl. rewrite Hfind. js_simpl. rewrite Hph, Hna. js_simpl.
    destruct (task_kind t); js_simpl;
      destruct (firstn (App.getMaxMarkersForZoom (zoom s)) elements);
      js_simpl; reflexivity.
Qed.

(** At zoom 11 a response of 60 nodes is published as its first 50. *)
Lemma published_set_is_truncated_witness :
  let s := App.run (initialState 11 (squareAt 0))
                   [(0%Z, MoveEnd 11 (squareAt 0)); (0%Z, TimerFired 0);
                    (1%Z, FetchSettled 1 (Resolved (mkResponse true 200)))] in
  let elements := map (fun i => nodeAt (Z.of_nat i) 0 0) (seq 0 60) in
  window_fountains (App.step s (2%Z, JsonSettled 1 (Resolved elements)))
  = firstn 50 elements.
Proof.
  intros s elements.
  destruct (@published_set_is_truncated testPlatform s elements 0 0 0 2 1
              (mkTask 1 (Fountains (squareAt 0) (cacheKey 1 (squareAt 0)))
                      AwaitJson false))
    as (_ & _ & _ & _ & _ & H).
  apply H; reflexivity.
Defined.

Example legacy_publishes_everything :
  List.length
    (window_fountains
       (exec (Legacy.renderMarkers
                (map (fun i => nodeAt (Z.of_nat i) 0 0) (seq 0 1200)))
             (initialState 11 (squareAt 0))))
  = 1200%nat.
Proof. vm_compute. reflexivity. Qed.
